(** * Verification of the normalisation and display-preference pipeline of
    [src/extension/background.js] (Quick Definition background worker).

    The worker manipulates parsed JSON payloads.  They are modelled as a
    small JavaScript value type [jv]; property access, truthiness, [typeof],
    template-literal string conversion, relational comparison and the
    string/array builtins the code calls are written out with their
    JavaScript semantics.  Numbers are modelled as integers ([Z]): the
    fractional, exponent and NaN/Infinity literals of JavaScript numbers are
    outside the model.  A thrown [TypeError] is the [Throw] outcome of the
    exception monad [res]. *)

From Stdlib Require Import String Ascii List ZArith Lia Bool.
From Stdlib Require Import DecimalString DecimalZ DecimalN.
Import ListNotations.
Open Scope string_scope.
Open Scope Z_scope.
Set Warnings "-register-all".

(* ------------------------------------------------------------------ *)
(** ** JavaScript values *)

Inductive jv : Type :=
| JUndef
| JNull
| JBool (b : bool)
| JNum (n : Z)
| JStr (s : string)
| JArr (xs : list jv)
| JObj (fs : list (string * jv)).

(** Outcome of JavaScript code that may throw. *)
Inductive res (A : Type) : Type :=
| Ok (a : A)
| Throw.
Arguments Ok {A} a.
Arguments Throw {A}.

Definition bind {A B} (m : res A) (k : A -> res B) : res B :=
  match m with Ok a => k a | Throw => Throw end.

Notation "'let*' x ':=' m 'in' k" := (bind m (fun x => k))
  (at level 200, x name, m at level 100, k at level 200).

Fixpoint mapM {A B} (f : A -> res B) (xs : list A) : res (list B) :=
  match xs with
  | [] => Ok []
  | x :: xs' => let* y := f x in let* ys := mapM f xs' in Ok (y :: ys)
  end.

(** Decimal rendering of an integer, as [String(n)] prints it. *)
Definition num_to_string (n : Z) : string :=
  NilZero.string_of_int (Z.to_int n).

Definition nat_key (i : nat) : string := num_to_string (Z.of_nat i).

Fixpoint assoc {A} (k : string) (fs : list (string * A)) : option A :=
  match fs with
  | [] => None
  | (k', v) :: fs' => if String.eqb k k' then Some v else assoc k fs'
  end.

(** The one-character strings of a string, as [s[i]] or iteration gives them. *)
Fixpoint chars (s : string) : list string :=
  match s with
  | EmptyString => []
  | String c s' => String c EmptyString :: chars s'
  end.

(** [o.k] for a named (non-index) property [k]; [undefined.k] and [null.k]
    throw. *)
Definition get (v : jv) (k : string) : res jv :=
  match v with
  | JUndef | JNull => Throw
  | JArr xs => Ok (if String.eqb k "length" then JNum (Z.of_nat (length xs)) else JUndef)
  | JStr s => Ok (if String.eqb k "length" then JNum (Z.of_nat (String.length s)) else JUndef)
  | JObj fs => Ok (match assoc k fs with Some x => x | None => JUndef end)
  | JBool _ | JNum _ => Ok JUndef
  end.

(** [o[i]] for an integer literal [i]. *)
Definition idx (v : jv) (i : nat) : res jv :=
  match v with
  | JUndef | JNull => Throw
  | JArr xs => Ok (nth i xs JUndef)
  | JStr s => Ok (nth i (map JStr (chars s)) JUndef)
  | JObj fs => Ok (match assoc (nat_key i) fs with Some x => x | None => JUndef end)
  | JBool _ | JNum _ => Ok JUndef
  end.

Definition truthy (v : jv) : bool :=
  match v with
  | JUndef | JNull => false
  | JBool b => b
  | JNum n => negb (Z.eqb n 0)
  | JStr s => negb (String.eqb s "")
  | JArr _ | JObj _ => true
  end.

(** [a || b] *)
Definition js_or (a b : jv) : jv := if truthy a then a else b.

Definition js_typeof (v : jv) : string :=
  match v with
  | JUndef => "undefined"
  | JNull | JArr _ | JObj _ => "object"
  | JBool _ => "boolean"
  | JNum _ => "number"
  | JStr _ => "string"
  end.

(** Strict equality [===]; arrays and objects are compared by identity,
    which two distinct values never share, so only primitives can be equal. *)
Definition strict_eq (a b : jv) : bool :=
  match a, b with
  | JUndef, JUndef | JNull, JNull => true
  | JBool x, JBool y => Bool.eqb x y
  | JNum x, JNum y => Z.eqb x y
  | JStr x, JStr y => String.eqb x y
  | _, _ => false
  end.

(** String conversion, as performed by template literals [`${v}`]. *)
Fixpoint to_string (v : jv) : string :=
  match v with
  | JUndef => "undefined"
  | JNull => "null"
  | JBool b => if b then "true" else "false"
  | JNum n => num_to_string n
  | JStr s => s
  | JArr xs =>
      (* Array.prototype.join(","): undefined and null elements print empty *)
      let fix join (ys : list jv) : string :=
        match ys with
        | [] => ""
        | [y] => match y with JUndef | JNull => "" | _ => to_string y end
        | y :: ys' =>
            (match y with JUndef | JNull => "" | _ => to_string y end)
              ++ "," ++ join ys'
        end in join xs
  | JObj _ => "[object Object]"
  end.

(* ------------------------------------------------------------------ *)
(** ** String builtins *)

(** [s.startsWith(p)] *)
Definition starts_with (p s : string) : bool := String.prefix p s.

Definition is_digit (c : ascii) : bool :=
  let n := nat_of_ascii c in Nat.leb 48 n && Nat.leb n 57.

(** [s.match(/^_[0-9]/)] is truthy *)
Definition matches_underscore_digit (s : string) : bool :=
  match s with
  | String c (String d _) => Ascii.eqb c "_" && is_digit d
  | _ => false
  end.

(** [s.charAt(0)]: the first character, or [""] for the empty string. *)
Definition char_at0 (s : string) : string := substring 0 1 s.

(** [s.replace(/a|b/g, '')] for literal patterns [a] and [b]: scanning from
    the left, each occurrence of [a] (tried first) or [b] is removed. *)
Fixpoint strip_go (a b : string) (fuel : nat) (s : string) : string :=
  match fuel with
  | O => s
  | S fuel' =>
      match s with
      | EmptyString => EmptyString
      | String c s' =>
          if String.prefix a s
          then strip_go a b fuel' (substring (String.length a) (String.length s) s)
          else if String.prefix b s
          then strip_go a b fuel' (substring (String.length b) (String.length s) s)
          else String c (strip_go a b fuel' s')
      end
  end.

Definition strip_markup (a b s : string) : string := strip_go a b (String.length s) s.

(** [s.split(':')[0]]: the part before the first [':']. *)
Fixpoint before_colon (s : string) : string :=
  match s with
  | EmptyString => EmptyString
  | String c s' => if Ascii.eqb c ":" then EmptyString else String c (before_colon s')
  end.

(** A method of [String.prototype] called on [v]: only strings have it, any
    other receiver makes the call throw. *)
Definition str_call {A} (v : jv) (f : string -> A) : res A :=
  match v with JStr s => Ok (f s) | _ => Throw end.

(** A method of [Array.prototype] ([map]) called on [v]. *)
Definition arr_call {A} (v : jv) (f : list jv -> res A) : res A :=
  match v with JArr xs => f xs | _ => Throw end.

(* ------------------------------------------------------------------ *)
(** ** Comparison and numeric coercion *)

Definition is_ws (c : ascii) : bool :=
  let n := nat_of_ascii c in
  Nat.eqb n 32 || (Nat.leb 9 n && Nat.leb n 13).

Fixpoint trim_left (s : string) : string :=
  match s with
  | String c s' => if is_ws c then trim_left s' else s
  | EmptyString => EmptyString
  end.

Definition trim (s : string) : string :=
  string_of_list_ascii (rev (list_ascii_of_string
    (trim_left (string_of_list_ascii (rev (list_ascii_of_string (trim_left s))))))).

(** [Number(s)] for a string (integer literals; [None] is NaN). *)
Definition string_to_number (s : string) : option Z :=
  match trim s with
  | EmptyString => Some 0
  | String "+" t =>
      match NilZero.int_of_string t with
      | Some (Decimal.Pos d) => Some (Z.of_int (Decimal.Pos d))
      | _ => None
      end
  | t => option_map Z.of_int (NilZero.int_of_string t)
  end.

(** [ToPrimitive]: arrays and objects become their string form. *)
Definition to_primitive (v : jv) : jv :=
  match v with JArr _ | JObj _ => JStr (to_string v) | _ => v end.

(** [ToNumber] of a primitive ([None] is NaN). *)
Definition prim_to_number (v : jv) : option Z :=
  match v with
  | JUndef => None
  | JNull => Some 0
  | JBool b => Some (if b then 1 else 0)
  | JNum n => Some n
  | JStr s => string_to_number s
  | JArr _ | JObj _ => None
  end.

Definition to_number (v : jv) : option Z := prim_to_number (to_primitive v).

Fixpoint str_lt (a b : string) : bool :=
  match a, b with
  | EmptyString, String _ _ => true
  | _, EmptyString => false
  | String c a', String d b' =>
      let x := nat_of_ascii c in let y := nat_of_ascii d in
      if Nat.ltb x y then true else if Nat.eqb x y then str_lt a' b' else false
  end.

(** [a > b] *)
Definition js_gt (a b : jv) : bool :=
  match to_primitive a, to_primitive b with
  | JStr x, JStr y => str_lt y x
  | pa, pb =>
      match prim_to_number pa, prim_to_number pb with
      | Some x, Some y => Z.gtb x y
      | _, _ => false
      end
  end.

(** End index of [x.slice(0, e)] for a receiver of length [len]. *)
Definition slice_end (len : Z) (e : jv) : Z :=
  match e with
  | JUndef => len
  | _ =>
      let r := match to_number e with Some n => n | None => 0 end in
      if r <? 0 then Z.max (len + r) 0 else Z.min r len
  end.

(** [v.slice(0, e)]: defined on arrays and strings, a throw on others. *)
Definition slice0 (v : jv) (e : jv) : res jv :=
  match v with
  | JArr xs => Ok (JArr (firstn (Z.to_nat (slice_end (Z.of_nat (length xs)) e)) xs))
  | JStr s => Ok (JStr (substring 0 (Z.to_nat (slice_end (Z.of_nat (String.length s)) e)) s))
  | _ => Throw
  end.

(* ------------------------------------------------------------------ *)
(** ** Spread and property update *)

Fixpoint indexed {A} (i : nat) (xs : list A) : list (string * A) :=
  match xs with
  | [] => []
  | x :: xs' => (nat_key i, x) :: indexed (S i) xs'
  end.

(** Own enumerable properties copied by [{ ...v }]. *)
Definition own_props (v : jv) : list (string * jv) :=
  match v with
  | JObj fs => fs
  | JArr xs => indexed 0 xs
  | JStr s => indexed 0 (map JStr (chars s))
  | _ => []
  end.

(** Elements produced by [[ ...v ]]; only arrays and strings are iterable. *)
Definition iter_elems (v : jv) : res (list jv) :=
  match v with
  | JArr xs => Ok xs
  | JStr s => Ok (map JStr (chars s))
  | _ => Throw
  end.

(** [o.k = v] on an object literal's properties: an existing key keeps its
    position, a new key is appended. *)
Definition set_prop {A} (k : string) (v : A) (fs : list (string * A)) : list (string * A) :=
  if existsb (fun kv => String.eqb (fst kv) k) fs
  then map (fun kv => if String.eqb (fst kv) k then (k, v) else kv) fs
  else fs ++ [(k, v)].

(** [xs.find(p)] with a callback that may throw. *)
Fixpoint js_find (p : jv -> res bool) (xs : list jv) : res jv :=
  match xs with
  | [] => Ok JUndef
  | x :: xs' => let* b := p x in if b then Ok x else js_find p xs'
  end.

(* ------------------------------------------------------------------ *)
(** ** Provider A adapter: [normalizeMwData] (background.js, lines 16-36) *)

(** Bucket of an audio token (line 24). *)
Definition mw_subdir (audioFile : string) : string :=
  if starts_with "bix" audioFile then "bix"
  else if starts_with "gg" audioFile then "gg"
  else if matches_underscore_digit audioFile then "number"
  else char_at0 audioFile.

(** Audio URL template (line 25). *)
Definition mw_audio_url (subdir audioFile : string) : string :=
  "https://media.merriam-webster.com/audio/prons/en/us/wav/" ++ subdir ++ "/"
    ++ audioFile ++ ".wav".

Definition pron_obj (pron url : jv) : jv :=
  JObj [("lang", JStr "us"); ("pron", pron); ("url", url)].

(** Lines 19-27: the pronunciation object. *)
Definition mw_pronunciation (entry : jv) : res jv :=
  let* hwi := get entry "hwi" in
  let* c := if truthy hwi then
              let* prs := get hwi "prs" in
              if truthy prs then let* p0 := idx prs 0 in Ok (truthy p0) else Ok false
            else Ok false in
  if c then
    let* prs := get hwi "prs" in
    let* p0 := idx prs 0 in
    let* mw := get p0 "mw" in
    let pron := JStr ("/" ++ to_string mw ++ "/") in
    let* sound := get p0 "sound" in
    if truthy sound then
      let* audioFile := get sound "audio" in
      let* subdir := str_call audioFile mw_subdir in
      Ok (pron_obj pron (JStr (mw_audio_url subdir (to_string audioFile))))
    else Ok (pron_obj pron (JStr ""))
  else Ok (pron_obj (JStr "") (JStr "")).

(** Line 33, the body of the [try]: the usage example found in the
    [vis] item of the first sub-sense, or [None]. *)
Definition mw_vis_example (entry : jv) : res (option string) :=
  let* def := get entry "def" in
  let* d0 := idx def 0 in
  let* sseq := get d0 "sseq" in
  let* s0 := idx sseq 0 in
  let* s00 := idx s0 0 in
  let* firstSense := idx s00 1 in
  let* dt := get firstSense "dt" in
  if truthy dt then
    match dt with
    | JArr items =>
        let* visExample :=
          js_find (fun item => let* i0 := idx item 0 in Ok (strict_eq i0 (JStr "vis"))) items in
        if truthy visExample then
          let* v1 := idx visExample 1 in
          let* v10 := idx v1 0 in
          let* t := get v10 "t" in
          let* exampleText := str_call t (strip_markup "{wi}" "{/wi}") in
          Ok (Some exampleText)
        else Ok None
    | _ => Ok None
    end
  else Ok None.

(** Lines 29-34: the examples of the single sense. *)
Definition mw_examples (entry : jv) : res (list jv) :=
  let* suppl := get entry "suppl" in
  let* c := if truthy suppl then
              let* exs := get suppl "examples" in
              if truthy exs then let* n := get exs "length" in Ok (js_gt n (JNum 0))
              else Ok false
            else Ok false in
  if c then
    let* exs := get suppl "examples" in
    let* e0 := idx exs 0 in
    let* exampleText := get e0 "t" in
    let* text := str_call exampleText (strip_markup "{it}" "{/it}") in
    Ok [JObj [("text", JStr text)]]
  else
    let* def := get entry "def" in
    let* c2 := if truthy def then
                 let* d0 := idx def 0 in
                 let* sseq := get d0 "sseq" in Ok (truthy sseq)
               else Ok false in
    if c2 then
      match mw_vis_example entry with
      | Ok (Some exampleText) => Ok [JObj [("text", JStr exampleText)]]
      | Ok None => Ok []
      | Throw => Ok []            (* caught and logged *)
      end
    else Ok [].

(** Lines 18-35: the entry built from the first record. *)
Definition mw_entry (entry : jv) : res jv :=
  let* pronunciation := mw_pronunciation entry in
  let* fl := get entry "fl" in
  let* shortdef := get entry "shortdef" in
  let* sd0 := idx shortdef 0 in
  let pos := js_or fl (JStr "unknown") in
  let text := js_or sd0 (JStr "No definition found.") in
  let* example := mw_examples entry in
  let definition := JObj [("pos", pos); ("text", text); ("example", JArr example)] in
  let* meta := get entry "meta" in
  let* id := get meta "id" in
  let* word := str_call id before_colon in
  Ok (JObj [("word", JStr word); ("pos", JArr [pos]); ("verbs", JArr []);
            ("pronunciation", JArr [pronunciation]); ("definition", JArr [definition])]).

Definition normalizeMwData (mwData : jv) : res jv :=
  if negb (truthy mwData) then Ok JNull else
  let* len := get mwData "length" in
  if strict_eq len (JNum 0) then Ok JNull else
  let* m0 := idx mwData 0 in
  if negb (String.eqb (js_typeof m0) "object") then Ok JNull else
  mw_entry m0.

(* ------------------------------------------------------------------ *)
(** ** Provider B adapter: [normalizeGeminiData] (background.js, lines 38-63) *)

(** Lines 48-51: one example, a bare string or a [{text, translation}] pair. *)
Definition gem_example (ex : jv) : res jv :=
  let* text := if String.eqb (js_typeof ex) "string" then Ok ex else get ex "text" in
  let* translation := if String.eqb (js_typeof ex) "object" then get ex "translation"
                      else Ok JNull in
  Ok (JObj [("text", text); ("translation", translation)]).

(** Lines 42-53: the sense built from one form. *)
Definition gem_form (form : jv) : res jv :=
  let* defs := get form "definitions" in
  let* firstDef := idx defs 0 in
  let* pos := get form "partOfSpeech" in
  let* d := get firstDef "definition" in
  let* dtr := get firstDef "definitionTranslation" in
  let* exs := get firstDef "examples" in
  let* example := if truthy exs then
                    arr_call exs (mapM gem_example)
                  else Ok [] in
  Ok (JObj [("pos", js_or pos (JStr "unknown"));
            ("text", js_or d (JStr "No definition text found."));
            ("translation", js_or dtr JNull);
            ("example", JArr example)]).

(** Lines 42-62: the entry built from a payload with a non-empty [forms]. *)
Definition gem_entry (aiData forms : jv) : res jv :=
  let* definitions := arr_call forms (mapM gem_form) in
  let* pr := get aiData "pronunciation" in
  let pronunciation := pron_obj (js_or pr (JStr "")) (JStr "") in
  let* w := get aiData "word" in
  let* word := if truthy w then Ok w else get aiData "phrase" in
  let* tr := get aiData "translation" in
  let* poss := mapM (fun d => get d "pos") definitions in
  Ok (JObj [("word", word); ("translation", js_or tr JNull); ("pos", JArr poss);
            ("verbs", JArr []); ("pronunciation", JArr [pronunciation]);
            ("definition", JArr definitions)]).

Definition normalizeGeminiData (aiData : jv) : res jv :=
  if negb (truthy aiData) then Ok JNull else
  let* forms := get aiData "forms" in
  if negb (truthy forms) then Ok JNull else
  let* flen := get forms "length" in
  if strict_eq flen (JNum 0) then Ok JNull else
  gem_entry aiData forms.

(* ------------------------------------------------------------------ *)
(** ** Preference projector: [applyDisplayPreferences] (lines 67-86) *)

(** Lines 78-82: the copy of one sense with its examples truncated. *)
Definition trim_def (count : jv) (def : jv) : res jv :=
  let newDef := own_props def in
  let* ex := get (JObj newDef) "example" in
  let* c := if truthy ex then let* n := get ex "length" in Ok (js_gt n count)
            else Ok false in
  if c then
    let* ex' := slice0 ex count in
    Ok (JObj (set_prop "example" ex' newDef))
  else Ok (JObj newDef).

Definition applyDisplayPreferences (data settings : jv) : res jv :=
  let* ds := get settings "definitionScope" in
  let scope := js_or ds (JStr "relevant") in
  let* ec := get settings "exampleCount" in
  let count := if negb (strict_eq ec JUndef) then ec else JNum 1 in
  let* d := get data "definition" in
  let* definitionsToUse := iter_elems d in
  let definitionsToUse :=
    if strict_eq scope (JStr "relevant") && Nat.ltb 1 (length definitionsToUse)
    then [nth 0 definitionsToUse JUndef] else definitionsToUse in
  let* finalDefinitions := mapM (trim_def count) definitionsToUse in
  Ok (JObj (set_prop "definition" (JArr finalDefinitions) (own_props data))).

(* ------------------------------------------------------------------ *)
(** ** Lexical cache key (lines 92-98) *)

(** The template literal of line 98. *)
Definition displaySettingsCacheKey (source : jv) (word : string)
    (definitionScope exampleCount targetLanguage : jv) : string :=
  "qdp_" ++ to_string source ++ "_" ++ word ++ "_" ++ to_string definitionScope
    ++ "_" ++ to_string exampleCount ++ "_" ++ to_string targetLanguage.

(** Lines 95-98: the key computed from the (lower-cased) term [word] and the
    settings object read from storage. *)
Definition lookup_cache_key (word : string) (settings : jv) : res string :=
  let* ps := get settings "preferredSource" in
  let source := js_or ps (JStr "cambridge") in
  let* tl := get settings "targetLanguage" in
  let targetLanguage := js_or tl (JStr "none") in
  let* ds := get settings "definitionScope" in
  let* ec := get settings "exampleCount" in
  Ok (displaySettingsCacheKey source word ds ec targetLanguage).

(* ------------------------------------------------------------------ *)
(** ** Store model of the projector

    For the frame property the projector is also modelled over a store:
    arrays and objects live at locations and values refer to them, as in the
    JavaScript heap.  The settings object is a separate plain value. *)

Module Store.

Inductive hv : Type :=
| HUndef
| HNull
| HBool (b : bool)
| HNum (n : Z)
| HStr (s : string)
| HRef (l : nat).

Inductive hobj : Type :=
| OArr (xs : list hv)
| OObj (fs : list (string * hv)).

Record heap : Type := { hmem : nat -> option hobj; hnext : nat }.

(** A computation over the store; a throw keeps the store reached so far. *)
Definition St (A : Type) : Type := heap -> res A * heap.

Definition ret {A} (a : A) : St A := fun h => (Ok a, h).
Definition throw {A} : St A := fun h => (Throw, h).

Definition sbind {A B} (m : St A) (k : A -> St B) : St B :=
  fun h => match m h with (Ok a, h') => k a h' | (Throw, h') => (Throw, h') end.

Notation "'let!' x ':=' m 'in' k" := (sbind m (fun x => k))
  (at level 200, x name, m at level 100, k at level 200).

Fixpoint smapM {A B} (f : A -> St B) (xs : list A) : St (list B) :=
  match xs with
  | [] => ret []
  | x :: xs' => let! y := f x in let! ys := smapM f xs' in ret (y :: ys)
  end.

Definition upd (h : heap) (l : nat) (o : hobj) : (nat -> option hobj) :=
  fun l' => if Nat.eqb l' l then Some o else hmem h l'.

(** Allocation of a fresh array or object. *)
Definition alloc (o : hobj) : St nat :=
  fun h => (Ok (hnext h), {| hmem := upd h (hnext h) o; hnext := S (hnext h) |}).

(** [o.k = v] on the object at [l]. *)
Definition set_field (l : nat) (k : string) (v : hv) : St unit :=
  fun h => match hmem h l with
           | Some (OObj fs) => (Ok tt, {| hmem := upd h l (OObj (set_prop k v fs));
                                          hnext := hnext h |})
           | _ => (Throw, h)
           end.

Definition deref (l : nat) : St hobj :=
  fun h => match hmem h l with Some o => (Ok o, h) | None => (Throw, h) end.

(** The value stored at a location, read back as a plain value ([fuel]
    bounds the depth). *)
Fixpoint read_back (fuel : nat) (h : heap) (v : hv) : jv :=
  match v with
  | HUndef => JUndef
  | HNull => JNull
  | HBool b => JBool b
  | HNum n => JNum n
  | HStr s => JStr s
  | HRef l =>
      match fuel with
      | O => JUndef
      | S fuel' =>
          match hmem h l with
          | Some (OArr xs) => JArr (map (read_back fuel' h) xs)
          | Some (OObj fs) => JObj (map (fun kv => (fst kv, read_back fuel' h (snd kv))) fs)
          | None => JUndef
          end
      end
  end.

Definition read (v : hv) : St jv := fun h => (Ok (read_back (S (hnext h)) h v), h).

Definition h_truthy (v : hv) : bool :=
  match v with
  | HUndef | HNull => false
  | HBool b => b
  | HNum n => negb (Z.eqb n 0)
  | HStr s => negb (String.eqb s "")
  | HRef _ => true
  end.

Definition h_get (v : hv) (k : string) : St hv :=
  match v with
  | HUndef | HNull => throw
  | HBool _ | HNum _ => ret HUndef
  | HStr s => ret (if String.eqb k "length" then HNum (Z.of_nat (String.length s)) else HUndef)
  | HRef l =>
      let! o := deref l in
      match o with
      | OArr xs => ret (if String.eqb k "length" then HNum (Z.of_nat (length xs)) else HUndef)
      | OObj fs => ret (match assoc k fs with Some x => x | None => HUndef end)
      end
  end.

Definition h_own_props (v : hv) : St (list (string * hv)) :=
  match v with
  | HRef l =>
      let! o := deref l in
      match o with
      | OObj fs => ret fs
      | OArr xs => ret (indexed 0 xs)
      end
  | HStr s => ret (indexed 0 (map HStr (chars s)))
  | _ => ret []
  end.

Definition h_iter_elems (v : hv) : St (list hv) :=
  match v with
  | HRef l =>
      let! o := deref l in
      match o with OArr xs => ret xs | OObj _ => throw end
  | HStr s => ret (map HStr (chars s))
  | _ => throw
  end.

(** [v.slice(0, e)]: a new array for an array receiver. *)
Definition h_slice0 (v : hv) (e : jv) : St hv :=
  match v with
  | HRef l =>
      let! o := deref l in
      match o with
      | OArr xs =>
          let! l' := alloc (OArr (firstn (Z.to_nat (slice_end (Z.of_nat (length xs)) e)) xs)) in
          ret (HRef l')
      | OObj _ => throw
      end
  | HStr s => ret (HStr (substring 0 (Z.to_nat (slice_end (Z.of_nat (String.length s)) e)) s))
  | _ => throw
  end.

Definition lift {A} (m : res A) : St A :=
  fun h => (m, h).

(** Lines 78-82 *)
Definition trim_def (count : jv) (def : hv) : St hv :=
  let! fs := h_own_props def in
  let! newDef := alloc (OObj fs) in
  let! ex := h_get (HRef newDef) "example" in
  let! c := if h_truthy ex then
              let! n := h_get ex "length" in
              let! nj := read n in
              ret (js_gt nj count)
            else ret false in
  if c then
    let! ex' := h_slice0 ex count in
    let! u := set_field newDef "example" ex' in
    ret (HRef newDef)
  else ret (HRef newDef).

(** Lines 67-86 *)
Definition applyDisplayPreferences (data : hv) (settings : jv) : St hv :=
  let! ds := lift (get settings "definitionScope") in
  let scope := js_or ds (JStr "relevant") in
  let! ec := lift (get settings "exampleCount") in
  let count := if negb (strict_eq ec JUndef) then ec else JNum 1 in
  let! d := h_get data "definition" in
  let! xs := h_iter_elems d in
  let! copy := alloc (OArr xs) in
  let! use :=
    if strict_eq scope (JStr "relevant") && Nat.ltb 1 (length xs)
    then let! one := alloc (OArr [nth 0 xs HUndef]) in ret (one, [nth 0 xs HUndef])
    else ret (copy, xs) in
  let! finalDefinitions := smapM (trim_def count) (snd use) in
  let! fin := alloc (OArr finalDefinitions) in
  let! props := h_own_props data in
  let! out := alloc (OObj (set_prop "definition" (HRef fin) props)) in
  ret (HRef out).

End Store.

(* ------------------------------------------------------------------ *)
(** ** Facts about strings and the value model *)

Lemma str_app_cancel_l (p a b : string) : p ++ a = p ++ b -> a = b.
Proof. induction p as [|c p IH]; simpl; [auto | intros H; injection H; auto]. Qed.

Lemma str_length_app (a b : string) :
  String.length (a ++ b) = (String.length a + String.length b)%nat.
Proof. induction a as [|c a IH]; simpl; auto. Qed.

Lemma str_app_cancel_r (a b s : string) : a ++ s = b ++ s -> a = b.
Proof.
  intros H.
  assert (Hl : String.length a = String.length b).
  { apply (f_equal String.length) in H. rewrite !str_length_app in H. lia. }
  revert b H Hl. induction a as [|c a IH]; intros [|d b] H Hl; simpl in *;
    try discriminate; auto.
  injection H as -> H. f_equal. apply IH; auto.
Qed.

Lemma to_int_not_nil (z : Z) :
  Z.to_int z <> Decimal.Pos Decimal.Nil /\ Z.to_int z <> Decimal.Neg Decimal.Nil.
Proof.
  split; intros H.
  - assert (Hz : z = 0) by (rewrite <- (DecimalZ.of_to z), H; reflexivity).
    subst z. discriminate H.
  - assert (Hz : z = 0) by (rewrite <- (DecimalZ.of_to z), H; reflexivity).
    subst z. discriminate H.
Qed.

Lemma num_to_string_parse (z : Z) :
  NilZero.int_of_string (num_to_string z) = Some (Z.to_int z).
Proof.
  unfold num_to_string. destruct (to_int_not_nil z). apply NilZero.isi; auto.
Qed.

Lemma num_to_string_inj (a b : Z) : num_to_string a = num_to_string b -> a = b.
Proof.
  intros H. apply (f_equal NilZero.int_of_string) in H.
  rewrite !num_to_string_parse in H. injection H as H.
  rewrite <- (DecimalZ.of_to a), <- (DecimalZ.of_to b), H. reflexivity.
Qed.

Lemma num_to_string_not_undefined (z : Z) : num_to_string z <> "undefined".
Proof.
  intros H. pose proof (num_to_string_parse z) as P. rewrite H in P. discriminate P.
Qed.

Lemma assoc_map_repl {A} (k k' : string) (v : A) fs :
  assoc k (map (fun kv => if String.eqb (fst kv) k' then (k', v) else kv) fs) =
  if String.eqb k k'
  then (if existsb (fun kv => String.eqb (fst kv) k') fs then Some v else None)
  else assoc k fs.
Proof.
  induction fs as [|[k0 v0] fs IH]; simpl.
  - destruct (String.eqb k k'); reflexivity.
  - destruct (String.eqb k0 k') eqn:E0; simpl.
    + apply String.eqb_eq in E0; subst k0.
      rewrite IH. destruct (String.eqb k k'); reflexivity.
    + destruct (String.eqb k k0) eqn:E1.
      * apply String.eqb_eq in E1; subst k0. rewrite E0. reflexivity.
      * rewrite IH. reflexivity.
Qed.

Lemma assoc_app_single {A} (k k' : string) (v : A) fs :
  assoc k (fs ++ [(k', v)]) =
  match assoc k fs with Some x => Some x | None => if String.eqb k k' then Some v else None end.
Proof.
  induction fs as [|[k0 v0] fs IH]; simpl; [destruct (String.eqb k k'); reflexivity|].
  destruct (String.eqb k k0); auto.
Qed.

Lemma assoc_none_of_existsb {A} (k : string) (fs : list (string * A)) :
  existsb (fun kv => String.eqb (fst kv) k) fs = false -> assoc k fs = None.
Proof.
  induction fs as [|[k0 v0] fs IH]; simpl; auto.
  intros E; apply Bool.orb_false_iff in E as [E0 E].
  rewrite String.eqb_sym, E0. auto.
Qed.

Lemma assoc_set_prop {A} (k k' : string) (v : A) fs :
  assoc k (set_prop k' v fs) = if String.eqb k k' then Some v else assoc k fs.
Proof.
  unfold set_prop. destruct (existsb _ fs) eqn:E.
  - rewrite assoc_map_repl, E. reflexivity.
  - rewrite assoc_app_single. destruct (String.eqb k k') eqn:Ek.
    + apply String.eqb_eq in Ek; subst k'. rewrite assoc_none_of_existsb; auto.
    + destruct (assoc k fs); reflexivity.
Qed.

Lemma get_set_prop (k k' : string) (v : jv) fs :
  get (JObj (set_prop k' v fs)) k = if String.eqb k k' then Ok v else get (JObj fs) k.
Proof. simpl. rewrite assoc_set_prop. destruct (String.eqb k k'); reflexivity. Qed.

(** Setting values of the two display preferences, as the options store them. *)
Definition scope_setting (v : jv) : Prop :=
  v = JUndef \/ v = JStr "relevant" \/ v = JStr "all".

Definition count_setting (v : jv) : Prop :=
  v = JUndef \/ exists k, v = JNum k.

(** Display preferences of the spec: [exampleCount] absent or a
    non-negative integer. *)
Definition count_pref (settings : jv) : Prop :=
  get settings "exampleCount" = Ok JUndef \/
  exists k, 0 <= k /\ get settings "exampleCount" = Ok (JNum k).

Ltac cancel_prefixes H :=
  repeat (first [ apply str_app_cancel_l in H
                | match type of H with
                  | String ?c _ = String ?c _ => injection H as H
                  end ]).

(* ------------------------------------------------------------------ *)
(** ** Cache key *)

(** C3: the lexical cache key is a function of the provider, the
    (lower-cased) term, the two display settings and the target language
    only, so two requests agreeing on these fields get the same key; and
    changing any single one of these fields (within the values the settings
    store holds: a string provider and language, a scope that is absent,
    ["relevant"] or ["all"], an example count that is absent or an integer)
    changes the key. *)
Theorem cache_key_deterministic_injective :
  (forall word s1 s2,
     (forall k, In k ["preferredSource"; "targetLanguage"; "definitionScope"; "exampleCount"] ->
                get s1 k = get s2 k) ->
     lookup_cache_key word s1 = lookup_cache_key word s2) /\
  (forall src1 src2 w sc c tl,
     displaySettingsCacheKey (JStr src1) w sc c tl = displaySettingsCacheKey (JStr src2) w sc c tl ->
     src1 = src2) /\
  (forall src w1 w2 sc c tl,
     displaySettingsCacheKey src w1 sc c tl = displaySettingsCacheKey src w2 sc c tl -> w1 = w2) /\
  (forall src w sc1 sc2 c tl, scope_setting sc1 -> scope_setting sc2 ->
     displaySettingsCacheKey src w sc1 c tl = displaySettingsCacheKey src w sc2 c tl -> sc1 = sc2) /\
  (forall src w sc c1 c2 tl, count_setting c1 -> count_setting c2 ->
     displaySettingsCacheKey src w sc c1 tl = displaySettingsCacheKey src w sc c2 tl -> c1 = c2) /\
  (forall src w sc c tl1 tl2,
     displaySettingsCacheKey src w sc c (JStr tl1) = displaySettingsCacheKey src w sc c (JStr tl2) ->
     tl1 = tl2).
Proof.
  split; [|split; [|split; [|split; [|split]]]].
  - intros word s1 s2 Hs. unfold lookup_cache_key.
    rewrite (Hs "preferredSource"), (Hs "targetLanguage"), (Hs "definitionScope"),
      (Hs "exampleCount") by (simpl; tauto). reflexivity.
  - intros src1 src2 w sc c tl H. unfold displaySettingsCacheKey in H.
    apply str_app_cancel_l in H. simpl to_string at 1 3 in H.
    eapply str_app_cancel_r; exact H.
  - intros src w1 w2 sc c tl H. unfold displaySettingsCacheKey in H.
    cancel_prefixes H. eapply str_app_cancel_r; exact H.
  - intros src w sc1 sc2 c tl H1 H2 H. unfold displaySettingsCacheKey in H.
    cancel_prefixes H. apply str_app_cancel_r in H.
    destruct H1 as [->|[->| ->]]; destruct H2 as [->|[->| ->]];
      simpl in H; congruence.
  - intros src w sc c1 c2 tl H1 H2 H. unfold displaySettingsCacheKey in H.
    cancel_prefixes H. apply str_app_cancel_r in H.
    destruct H1 as [->|[k1 ->]]; destruct H2 as [->|[k2 ->]]; simpl in H.
    + reflexivity.
    + symmetry in H. apply num_to_string_not_undefined in H. contradiction.
    + apply num_to_string_not_undefined in H. contradiction.
    + apply num_to_string_inj in H. subst. reflexivity.
  - intros src w sc c tl1 tl2 H. unfold displaySettingsCacheKey in H.
    cancel_prefixes H. exact H.
Qed.

(** C10: the key embeds the raw settings values.  With [definitionScope]
    (resp. [exampleCount]) absent, the key field reads ["undefined"], and the
    key differs from the one of the same settings with ["relevant"]
    (resp. [1]) stored explicitly, although the projector returns the same
    result for both settings objects on every input. *)
Theorem unset_pref_key_vs_default (word : string) (fs : list (string * jv)) :
  (assoc "definitionScope" fs = None ->
     (exists src ec tl, lookup_cache_key word (JObj fs) =
                        Ok (displaySettingsCacheKey src word JUndef ec tl)) /\
     lookup_cache_key word (JObj fs) <>
       lookup_cache_key word (JObj (set_prop "definitionScope" (JStr "relevant") fs)) /\
     (forall data, applyDisplayPreferences data (JObj fs) =
                   applyDisplayPreferences data (JObj (set_prop "definitionScope" (JStr "relevant") fs)))) /\
  (assoc "exampleCount" fs = None ->
     (exists src ds tl, lookup_cache_key word (JObj fs) =
                        Ok (displaySettingsCacheKey src word ds JUndef tl)) /\
     lookup_cache_key word (JObj fs) <>
       lookup_cache_key word (JObj (set_prop "exampleCount" (JNum 1) fs)) /\
     (forall data, applyDisplayPreferences data (JObj fs) =
                   applyDisplayPreferences data (JObj (set_prop "exampleCount" (JNum 1) fs)))).
Proof.
  split; intros H; split; [| split | | split].
  - unfold lookup_cache_key. simpl get at 3. rewrite H. simpl. eauto.
  - unfold lookup_cache_key. rewrite !get_set_prop. simpl. rewrite H.
    intros E. injection E as E. unfold displaySettingsCacheKey in E.
    cancel_prefixes E. congruence.
  - intros data. unfold applyDisplayPreferences. rewrite !get_set_prop. simpl.
    rewrite H. reflexivity.
  - unfold lookup_cache_key. simpl get at 4. rewrite H. simpl. eauto.
  - unfold lookup_cache_key. rewrite !get_set_prop. simpl. rewrite H.
    intros E. injection E as E. unfold displaySettingsCacheKey in E.
    cancel_prefixes E. congruence.
  - intros data. unfold applyDisplayPreferences. rewrite !get_set_prop. simpl.
    rewrite H. reflexivity.
Qed.

Lemma cache_key_deterministic_injective_witness :
  let s1 := JObj [("preferredSource", JStr "cambridge"); ("definitionScope", JStr "relevant");
                  ("exampleCount", JNum 1); ("targetLanguage", JStr "none")] in
  let s2 := JObj [("ttsEnabled", JBool true); ("targetLanguage", JStr "none");
                  ("exampleCount", JNum 1); ("definitionScope", JStr "relevant");
                  ("preferredSource", JStr "cambridge")] in
  lookup_cache_key "run" s1 = lookup_cache_key "run" s2 /\
  lookup_cache_key "run" s1 = Ok "qdp_cambridge_run_relevant_1_none" /\
  "cambridge" = "cambridge" /\ "run" = "run" /\ JStr "relevant" = JStr "relevant" /\
  JNum 1 = JNum 1 /\ "none" = "none".
Proof.
  intros s1 s2. destruct cache_key_deterministic_injective as (D & I1 & I2 & I3 & I4 & I5).
  split; [apply D; intros k Hk; simpl in Hk; destruct Hk as [<-|[<-|[<-|[<-|[]]]]]; reflexivity|].
  split; [vm_compute; reflexivity|].
  split; [apply (I1 _ _ "run" (JStr "relevant") (JNum 1) (JStr "none")); reflexivity|].
  split; [apply (I2 (JStr "cambridge") _ _ (JStr "relevant") (JNum 1) (JStr "none")); reflexivity|].
  split; [apply (I3 (JStr "cambridge") "run" _ _ (JNum 1) (JStr "none"));
            [unfold scope_setting; auto | unfold scope_setting; auto | reflexivity]|].
  split; [apply (I4 (JStr "cambridge") "run" (JStr "relevant") _ _ (JStr "none"));
            [unfold count_setting; eauto | unfold count_setting; eauto | reflexivity]|].
  apply (I5 (JStr "cambridge") "run" (JStr "relevant") (JNum 1)). reflexivity.
Defined.

Lemma unset_pref_key_vs_default_witness :
  let fs1 := [("preferredSource", JStr "gemini"); ("exampleCount", JNum 2)] in
  let fs2 := [("definitionScope", JStr "all"); ("targetLanguage", JStr "vi")] in
  let data := JObj [("word", JStr "run");
                    ("definition", JArr [JObj [("example", JArr [JStr "a"; JStr "b"])]; JObj []])] in
  assoc "definitionScope" fs1 = None /\
  lookup_cache_key "run" (JObj fs1) = Ok "qdp_gemini_run_undefined_2_none" /\
  lookup_cache_key "run" (JObj fs1) <>
    lookup_cache_key "run" (JObj (set_prop "definitionScope" (JStr "relevant") fs1)) /\
  applyDisplayPreferences data (JObj fs1) =
    applyDisplayPreferences data (JObj (set_prop "definitionScope" (JStr "relevant") fs1)) /\
  assoc "exampleCount" fs2 = None /\
  lookup_cache_key "run" (JObj fs2) = Ok "qdp_cambridge_run_all_undefined_vi" /\
  lookup_cache_key "run" (JObj fs2) <>
    lookup_cache_key "run" (JObj (set_prop "exampleCount" (JNum 1) fs2)) /\
  applyDisplayPreferences data (JObj fs2) =
    applyDisplayPreferences data (JObj (set_prop "exampleCount" (JNum 1) fs2)).
Proof.
  intros fs1 fs2 data.
  assert (H1 : assoc "definitionScope" fs1 = None) by reflexivity.
  assert (H2 : assoc "exampleCount" fs2 = None) by reflexivity.
  destruct (proj1 (unset_pref_key_vs_default "run" fs1) H1) as (_ & A1 & B1).
  destruct (proj2 (unset_pref_key_vs_default "run" fs2) H2) as (_ & A2 & B2).
  split; [exact H1|]. split; [vm_compute; reflexivity|].
  split; [exact A1|]. split; [exact (B1 data)|].
  split; [exact H2|]. split; [vm_compute; reflexivity|].
  split; [exact A2 | exact (B2 data)].
Defined.

(* ------------------------------------------------------------------ *)
(** ** Inversion of the exception monad *)

Lemma bind_ok {A B} (m : res A) (k : A -> res B) (b : B) :
  bind m k = Ok b -> exists a, m = Ok a /\ k a = Ok b.
Proof. destruct m; simpl; [eauto | discriminate]. Qed.

Lemma str_call_ok {A} (v : jv) (f : string -> A) (a : A) :
  str_call v f = Ok a -> exists s, v = JStr s /\ a = f s.
Proof. destruct v; simpl; try discriminate. intros H; injection H as <-; eauto. Qed.

Lemma arr_call_ok {A} (v : jv) (f : list jv -> res A) (a : A) :
  arr_call v f = Ok a -> exists xs, v = JArr xs /\ f xs = Ok a.
Proof. destruct v; simpl; try discriminate. eauto. Qed.

Ltac inv_ok H :=
  repeat match type of H with
  | bind _ _ = Ok _ =>
      let a := fresh "a" in let Ha := fresh "Ha" in apply bind_ok in H as [a [Ha H]]
  | (if ?b then _ else _) = Ok _ => let E := fresh "E" in destruct b eqn:E
  | Ok _ = Ok _ => injection H as H
  end.

Lemma mapM_length {A B} (f : A -> res B) xs ys :
  mapM f xs = Ok ys -> length ys = length xs.
Proof.
  revert ys; induction xs as [|x xs IH]; simpl; intros ys H.
  - injection H as <-; reflexivity.
  - inv_ok H. subst ys. simpl. f_equal. apply IH; auto.
Qed.

Lemma mapM_nth {A B} (f : A -> res B) xs ys i y :
  mapM f xs = Ok ys -> nth_error ys i = Some y -> exists x, nth_error xs i = Some x /\ f x = Ok y.
Proof.
  revert ys i; induction xs as [|x xs IH]; simpl; intros ys i H Hi.
  - injection H as <-. destruct i; discriminate.
  - inv_ok H. subst ys. destruct i as [|i]; simpl in *.
    + injection Hi as <-. eauto.
    + eapply IH; eauto.
Qed.

Lemma mapM_throw {A B} (f : A -> res B) xs x :
  In x xs -> f x = Throw -> mapM f xs = Throw.
Proof.
  induction xs as [|y xs IH]; simpl; [contradiction|].
  intros [<- | Hin] Hx.
  - rewrite Hx. reflexivity.
  - destruct (f y); simpl; [|reflexivity]. rewrite (IH Hin Hx). reflexivity.
Qed.

Lemma mapM_ok_exists {A B} (f : A -> res B) xs :
  (forall x, In x xs -> exists y, f x = Ok y) -> exists ys, mapM f xs = Ok ys.
Proof.
  induction xs as [|x xs IH]; simpl; intros H; [eauto|].
  destruct (H x (or_introl eq_refl)) as [y Hy]. rewrite Hy; simpl.
  destruct IH as [ys Hys]; [intros; apply H; auto|]. rewrite Hys. simpl. eauto.
Qed.

(** Successful outputs of the adapters, inverted along the source. *)
Lemma mw_ok_inv (mwData r : jv) :
  normalizeMwData mwData = Ok r -> r <> JNull ->
  exists m0 pron fl sd sd0 ex meta id,
    idx mwData 0 = Ok m0 /\ mw_pronunciation m0 = Ok pron /\ get m0 "fl" = Ok fl /\
    get m0 "shortdef" = Ok sd /\ idx sd 0 = Ok sd0 /\ mw_examples m0 = Ok ex /\
    get m0 "meta" = Ok meta /\ get meta "id" = Ok (JStr id) /\
    r = JObj [("word", JStr (before_colon id)); ("pos", JArr [js_or fl (JStr "unknown")]);
              ("verbs", JArr []); ("pronunciation", JArr [pron]);
              ("definition", JArr [JObj [("pos", js_or fl (JStr "unknown"));
                                         ("text", js_or sd0 (JStr "No definition found."));
                                         ("example", JArr ex)]])].
Proof.
  unfold normalizeMwData, mw_entry. intros H Hn. inv_ok H; try (subst; congruence).
  match goal with Hs : str_call _ _ = Ok _ |- _ => apply str_call_ok in Hs as [s [-> ->]] end.
  subst r. do 8 eexists. repeat split; eauto.
Qed.

Lemma gem_ok_inv (aiData r : jv) :
  normalizeGeminiData aiData = Ok r -> r <> JNull ->
  exists fs definitions pr w word tr poss,
    get aiData "forms" = Ok (JArr fs) /\ mapM gem_form fs = Ok definitions /\
    get aiData "pronunciation" = Ok pr /\ get aiData "word" = Ok w /\
    (if truthy w then Ok w else get aiData "phrase") = Ok word /\
    get aiData "translation" = Ok tr /\ mapM (fun d => get d "pos") definitions = Ok poss /\
    r = JObj [("word", word); ("translation", js_or tr JNull); ("pos", JArr poss);
              ("verbs", JArr []); ("pronunciation", JArr [pron_obj (js_or pr (JStr "")) (JStr "")]);
              ("definition", JArr definitions)].
Proof.
  unfold normalizeGeminiData, gem_entry. intros H Hn. inv_ok H; try (subst; congruence).
  match goal with Hs : arr_call _ _ = Ok _ |- _ => apply arr_call_ok in Hs as [fs [-> Hfs]] end.
  subst r. do 7 eexists. repeat split; eauto.
Qed.

Lemma get_named_obj (v : jv) (k : string) (w : jv) :
  get v k = Ok w -> String.eqb k "length" = false -> w <> JUndef -> exists gs, v = JObj gs.
Proof.
  destruct v; simpl; intros H Hk Hw; try discriminate; try rewrite Hk in H;
    try (injection H as <-; congruence); eauto.
Qed.

Lemma idx_obj_truthy (v : jv) (i : nat) (fs : list (string * jv)) :
  idx v i = Ok (JObj fs) -> truthy v = true.
Proof.
  destruct v; simpl; intros H; try discriminate; try reflexivity.
  - injection H as H. revert i H. induction (chars s) as [|c cs IH]; intros [|i] H;
      simpl in H; try discriminate; eauto.
Qed.

(** The audio token [entry.hwi.prs[0].sound.audio] of a record. *)
Definition audio_token (entry : jv) : res jv :=
  let* hwi := get entry "hwi" in
  let* prs := get hwi "prs" in
  let* p0 := idx prs 0 in
  let* sound := get p0 "sound" in
  get sound "audio".

Lemma mw_pronunciation_url (entry pron : jv) (t : string) :
  mw_pronunciation entry = Ok pron -> audio_token entry = Ok (JStr t) ->
  exists p, pron = pron_obj p (JStr (mw_audio_url (mw_subdir t) t)).
Proof.
  intros Hp Ha. unfold audio_token in Ha. inv_ok Ha.
  rename a into hwi, a0 into prs, a1 into p0, a2 into sound.
  destruct (get_named_obj sound "audio" (JStr t)) as [gs Hs]; auto; try discriminate.
  subst sound.
  destruct (get_named_obj p0 "sound" (JObj gs)) as [gp Hp0]; auto; try discriminate.
  subst p0.
  pose proof (idx_obj_truthy prs 0 gp Ha2) as Tprs.
  destruct (get_named_obj hwi "prs" prs) as [gh Hh]; auto;
    [intros ->; discriminate|].
  subst hwi.
  unfold mw_pronunciation in Hp.
  repeat (rewrite ?Ha0, ?Ha1, ?Ha2, ?Ha3, ?Ha, ?Tprs in Hp; progress cbn [bind truthy str_call] in Hp).
  destruct (get (JObj gp) "mw") as [mw|]; cbn [bind] in Hp; [|discriminate].
  repeat (rewrite ?Ha0, ?Ha1, ?Ha2, ?Ha3, ?Ha, ?Tprs in Hp; progress cbn [bind truthy str_call] in Hp).
  injection Hp as <-. eauto.
Qed.

Lemma mw_subdir_prefix3 (t : string) : mw_subdir t = mw_subdir (substring 0 3 t).
Proof. destruct t as [|a [|b [|c [|d t]]]]; reflexivity. Qed.

(** C7: the bucket of an audio token follows the prefix rule ([bix], [gg],
    underscore-then-digit, else the first character as [charAt(0)] gives
    it), depends only on the first three characters of the token, and a
    Provider A entry built from a record whose audio token is [t] carries
    the URL [{base}/us/wav/{bucket}/{t}.wav], ["us"] being the language tag
    of that pronunciation. *)
Theorem mw_audio_bucket_rule :
  (forall t, starts_with "bix" t = true -> mw_subdir t = "bix") /\
  (forall t, starts_with "gg" t = true -> mw_subdir t = "gg") /\
  (forall t, matches_underscore_digit t = true -> mw_subdir t = "number") /\
  (forall t, starts_with "bix" t = false -> starts_with "gg" t = false ->
             matches_underscore_digit t = false -> mw_subdir t = char_at0 t) /\
  (forall t u, substring 0 3 t = substring 0 3 u -> mw_subdir t = mw_subdir u) /\
  (forall mwData r m0 t,
     normalizeMwData mwData = Ok r -> r <> JNull -> idx mwData 0 = Ok m0 ->
     audio_token m0 = Ok (JStr t) ->
     exists p, get r "pronunciation" =
       Ok (JArr [JObj [("lang", JStr "us"); ("pron", p);
                       ("url", JStr ("https://media.merriam-webster.com/audio/prons/en" ++ "/" ++ "us"
                                     ++ "/wav/" ++ mw_subdir t ++ "/" ++ t ++ ".wav"))]])).
Proof.
  split; [|split; [|split; [|split; [|split]]]].
  - intros t H. unfold mw_subdir. rewrite H. reflexivity.
  - intros t H. unfold mw_subdir. replace (starts_with "bix" t) with false; [rewrite H; reflexivity|].
    destruct t as [|a t]; [reflexivity|]. unfold starts_with in *. cbn [String.prefix] in *.
    destruct (ascii_dec "b" a) as [E|]; [subst a; discriminate H | reflexivity].
  - intros t H. unfold mw_subdir.
    destruct t as [|a [|b t]]; try discriminate. simpl in H.
    apply Bool.andb_true_iff in H as [Ha Hb]. apply Ascii.eqb_eq in Ha. subst a.
    simpl. rewrite Hb. reflexivity.
  - intros t H1 H2 H3. unfold mw_subdir. rewrite H1, H2, H3. reflexivity.
  - intros t u H. rewrite (mw_subdir_prefix3 t), (mw_subdir_prefix3 u), H. reflexivity.
  - intros mwData r m0 t H Hn H0 Ha.
    destruct (mw_ok_inv mwData r H Hn) as (m0' & pron & fl & sd & sd0 & ex & meta & id &
      Hm0 & Hpron & _ & _ & _ & _ & _ & _ & ->).
    rewrite H0 in Hm0. injection Hm0 as <-.
    destruct (mw_pronunciation_url m0 pron t Hpron Ha) as [p ->].
    exists p. reflexivity.
Qed.

Lemma mw_audio_bucket_rule_witness :
  exists r, normalizeMwData
    (JArr [JObj [("meta", JObj [("id", JStr "run:1")]);
                 ("hwi", JObj [("prs", JArr [JObj [("mw", JStr "ran");
                                                   ("sound", JObj [("audio", JStr "bix123")])]])]);
                 ("shortdef", JArr [JStr "to go"])]]) = Ok r /\
  r <> JNull /\
  exists p, get r "pronunciation" =
    Ok (JArr [JObj [("lang", JStr "us"); ("pron", p);
                    ("url", JStr ("https://media.merriam-webster.com/audio/prons/en" ++ "/" ++ "us"
                                  ++ "/wav/" ++ mw_subdir "bix123" ++ "/" ++ "bix123" ++ ".wav"))]]).
Proof.
  destruct mw_audio_bucket_rule as [_ [_ [_ [_ [_ H]]]]].
  match goal with |- exists r, ?m = Ok r /\ _ => destruct m as [r|] eqn:E end.
  - assert (Hn : r <> JNull) by (vm_compute in E; injection E as <-; discriminate).
    exists r. split; [reflexivity|]. split; [exact Hn|].
    eapply H; [exact E | exact Hn | reflexivity | reflexivity].
  - vm_compute in E. discriminate E.
Defined.

(* ------------------------------------------------------------------ *)
(** ** Adapter guards *)

(** The guard of [normalizeMwData] (line 17) fires. *)
Definition mw_rejects (p : jv) : bool :=
  negb (truthy p)
  || match get p "length" with Ok len => strict_eq len (JNum 0) | Throw => false end
  || match idx p 0 with Ok m0 => negb (String.eqb (js_typeof m0) "object") | Throw => false end.

(** The guard of [normalizeGeminiData] (line 39) fires. *)
Definition gem_rejects (p : jv) : bool :=
  negb (truthy p)
  || match get p "forms" with
     | Ok forms =>
         negb (truthy forms)
         || match get forms "length" with Ok n => strict_eq n (JNum 0) | Throw => false end
     | Throw => false
     end.

Lemma get_truthy_ok (v : jv) (k : string) : truthy v = true -> exists w, get v k = Ok w.
Proof. destruct v; simpl; try discriminate; eauto. Qed.

Lemma idx_truthy_ok (v : jv) (i : nat) : truthy v = true -> exists w, idx v i = Ok w.
Proof. destruct v; simpl; try discriminate; eauto. Qed.

Lemma mw_guard_split (p : jv) :
  normalizeMwData p = if mw_rejects p then Ok JNull else bind (idx p 0) mw_entry.
Proof.
  unfold normalizeMwData, mw_rejects.
  destruct (truthy p) eqn:T; [|reflexivity]. simpl.
  destruct (get_truthy_ok p "length" T) as [len ->].
  destruct (idx_truthy_ok p 0 T) as [m0 ->]. simpl.
  destruct (strict_eq len (JNum 0)); [reflexivity|]. simpl.
  destruct (negb _); reflexivity.
Qed.

Lemma gem_guard_split (p : jv) :
  normalizeGeminiData p =
  if gem_rejects p then Ok JNull else bind (get p "forms") (gem_entry p).
Proof.
  unfold normalizeGeminiData, gem_rejects.
  destruct (truthy p) eqn:T; [|reflexivity]. simpl.
  destruct (get_truthy_ok p "forms" T) as [forms ->]. simpl.
  destruct (truthy forms) eqn:Tf; [|reflexivity]. simpl.
  destruct (get_truthy_ok forms "length" Tf) as [n ->]. simpl.
  destruct (strict_eq n (JNum 0)); reflexivity.
Qed.

Lemma mw_entry_obj (e r : jv) : mw_entry e = Ok r -> exists fs, r = JObj fs.
Proof. unfold mw_entry. intros H. inv_ok H. subst. eauto. Qed.

Lemma gem_entry_obj (a f r : jv) : gem_entry a f = Ok r -> exists fs, r = JObj fs.
Proof. unfold gem_entry. intros H. inv_ok H. subst. eauto. Qed.

(** The text of the first sense of an adapted entry. *)
Definition first_sense_text (r : jv) : res jv :=
  let* ds := get r "definition" in
  let* d := idx ds 0 in
  get d "text".

(* ------------------------------------------------------------------ *)
(** ** Provider A definition text *)

(** C8 (as the code does it): for a Provider A record whose short-definition
    list is [sds], the first sense's text is the first short definition when
    it is a non-empty string, and ["No definition found."] when the list is
    empty or its first string is empty (the fallback is taken on a falsy
    first element, by [||]). *)
Theorem mw_first_definition_text (mwData r m0 : jv) (sds : list jv) :
  normalizeMwData mwData = Ok r -> r <> JNull -> idx mwData 0 = Ok m0 ->
  get m0 "shortdef" = Ok (JArr sds) ->
  (forall s rest, sds = JStr s :: rest -> s <> "" -> first_sense_text r = Ok (JStr s)) /\
  (sds = [] -> first_sense_text r = Ok (JStr "No definition found.")) /\
  (forall rest, sds = JStr "" :: rest -> first_sense_text r = Ok (JStr "No definition found.")).
Proof.
  intros H Hn H0 Hsd.
  destruct (mw_ok_inv mwData r H Hn) as (m0' & pron & fl & sd & sd0 & ex & meta & id &
      Hm0 & _ & _ & Hsd' & Hsd0 & _ & _ & _ & ->).
  rewrite H0 in Hm0. injection Hm0 as <-. rewrite Hsd in Hsd'. injection Hsd' as <-.
  simpl in Hsd0. injection Hsd0 as <-.
  unfold first_sense_text. simpl.
  split; [|split].
  - intros s rest -> Hs. simpl. unfold js_or. simpl.
    apply String.eqb_neq in Hs. rewrite Hs. reflexivity.
  - intros ->. reflexivity.
  - intros rest ->. reflexivity.
Qed.

Definition mw_run_payload : jv :=
  JArr [JObj [("meta", JObj [("id", JStr "run:1")]); ("fl", JStr "verb");
              ("shortdef", JArr [JStr "to go faster than a walk"])]].

Lemma mw_first_definition_text_witness :
  exists r, normalizeMwData mw_run_payload = Ok r /\
  first_sense_text r = Ok (JStr "to go faster than a walk").
Proof.
  destruct (normalizeMwData mw_run_payload) as [r|] eqn:E.
  - assert (Hn : r <> JNull) by (vm_compute in E; injection E as <-; discriminate).
    exists r. split; [reflexivity|].
    eapply (mw_first_definition_text mw_run_payload r _ [JStr "to go faster than a walk"]);
      [exact E | exact Hn | reflexivity | reflexivity | reflexivity | discriminate].
  - vm_compute in E. discriminate E.
Defined.

(** C8 refuted as stated: a record whose non-empty short-definition list
    starts with the empty string gets the fallback text instead of that
    string. *)
Lemma mw_blank_shortdef_counterexample :
  exists r, normalizeMwData
    (JArr [JObj [("meta", JObj [("id", JStr "run:1")]); ("shortdef", JArr [JStr ""])]]) = Ok r /\
  first_sense_text r = Ok (JStr "No definition found.") /\
  first_sense_text r <> Ok (JStr "").
Proof. eexists. split; [reflexivity|]. split; [reflexivity | discriminate]. Qed.

(* ------------------------------------------------------------------ *)
(** ** Adapter outcomes on payloads lacking fields *)

Lemma gem_form_throw (f : jv) :
  get f "definitions" = Ok JUndef \/ get f "definitions" = Ok (JArr []) -> gem_form f = Throw.
Proof.
  unfold gem_form. intros [H|H]; rewrite H; [reflexivity|].
  destruct (get_named_obj f "definitions" (JArr []) H eq_refl ltac:(discriminate))
    as [gs ->].
  reflexivity.
Qed.

Ltac throw_chain :=
  repeat (cbn [bind]; try reflexivity;
          match goal with
          | |- bind ?m _ = Throw => let E := fresh "E" in destruct m eqn:E
          end).

(** C1 (as the code does it): each adapter returns [null] exactly when its
    guard fires (Provider A: a falsy payload, one of length 0, or one whose
    first element is not of type "object"; Provider B: a falsy payload or a
    falsy or empty [forms]).  Past the guard the payload is not validated:
    Provider A throws when the first record is [null] or lacks [shortdef],
    [meta] or [meta.id]; Provider B throws when a form lacks a non-empty
    [definitions] list, and returns an entry whose [word] is [undefined] when
    the payload has neither [word] nor [phrase]. *)
Theorem adapters_null_exactly_on_guard :
  (forall p, normalizeMwData p = Ok JNull <-> mw_rejects p = true) /\
  (forall p, normalizeGeminiData p = Ok JNull <-> gem_rejects p = true) /\
  (forall p m0, mw_rejects p = false -> idx p 0 = Ok m0 ->
     (m0 = JNull \/ get m0 "shortdef" = Ok JUndef \/ get m0 "meta" = Ok JUndef \/
      exists meta, get m0 "meta" = Ok meta /\ get meta "id" = Ok JUndef) ->
     normalizeMwData p = Throw) /\
  (forall p fs f, gem_rejects p = false -> get p "forms" = Ok (JArr fs) -> In f fs ->
     (get f "definitions" = Ok JUndef \/ get f "definitions" = Ok (JArr [])) ->
     normalizeGeminiData p = Throw) /\
  (forall p r, normalizeGeminiData p = Ok r -> r <> JNull ->
     get p "word" = Ok JUndef -> get p "phrase" = Ok JUndef -> get r "word" = Ok JUndef).
Proof.
  split; [|split; [|split; [|split]]].
  - intros p. rewrite mw_guard_split. destruct (mw_rejects p); split; auto; intros H;
      try discriminate.
    destruct (idx p 0) as [m0|]; cbn [bind] in H; [|discriminate].
    apply mw_entry_obj in H as [fs Hf]. discriminate.
  - intros p. rewrite gem_guard_split. destruct (gem_rejects p); split; auto; intros H;
      try discriminate.
    destruct (get p "forms") as [forms|]; cbn [bind] in H; [|discriminate].
    apply gem_entry_obj in H as [fs Hf]. discriminate.
  - intros p m0 R H0 Hm. rewrite mw_guard_split, R, H0. cbn [bind]. unfold mw_entry.
    destruct Hm as [->|[Hsd|[Hmeta|[meta [Hmeta Hid]]]]].
    + reflexivity.
    + rewrite Hsd. throw_chain.
    + rewrite Hmeta. throw_chain.
    + rewrite Hmeta.
      repeat (try rewrite Hid; cbn [bind]; try reflexivity;
              match goal with
              | |- bind ?m _ = Throw => let E := fresh "E" in destruct m eqn:E
              end).
  - intros p fs f R Hforms Hin Hf. rewrite gem_guard_split, R, Hforms. cbn [bind].
    unfold gem_entry. cbn [arr_call].
    rewrite (mapM_throw gem_form fs f Hin (gem_form_throw f Hf)). reflexivity.
  - intros p r H Hn Hw Hph.
    destruct (gem_ok_inv p r H Hn) as (fs & defs & pr & w & word & tr & poss &
      _ & _ & _ & Hw' & Hword & _ & _ & ->).
    rewrite Hw in Hw'. injection Hw' as <-. cbn [truthy] in Hword. rewrite Hph in Hword.
    injection Hword as <-. reflexivity.
Qed.

Definition gem_wordless_payload : jv :=
  JObj [("forms", JArr [JObj [("definitions", JArr [JObj [("definition", JStr "move fast")]])]])].

Lemma adapters_null_exactly_on_guard_witness :
  normalizeMwData (JArr [JObj [("fl", JStr "verb")]]) = Throw /\
  normalizeGeminiData (JObj [("word", JStr "run"); ("forms", JArr [JObj []])]) = Throw /\
  exists r, normalizeGeminiData gem_wordless_payload = Ok r /\ r <> JNull /\
            get r "word" = Ok JUndef.
Proof.
  destruct adapters_null_exactly_on_guard as [_ [_ [Hmw [Hgem Hword]]]].
  split; [|split].
  - apply (Hmw _ (JObj [("fl", JStr "verb")])); [reflexivity | reflexivity |].
    right; left; reflexivity.
  - apply (Hgem _ [JObj []] (JObj [])); [reflexivity | reflexivity | left; reflexivity |].
    left; reflexivity.
  - destruct (normalizeGeminiData gem_wordless_payload) as [r|] eqn:E.
    + assert (Hn : r <> JNull) by (vm_compute in E; injection E as <-; discriminate).
      exists r. split; [reflexivity | split; [exact Hn |]].
      apply (Hword gem_wordless_payload); [exact E | exact Hn | reflexivity | reflexivity].
    + vm_compute in E. discriminate E.
Defined.

(** C1 refuted as stated: payloads without the minimum fields make the
    adapters throw (a Provider A record with neither headword nor
    definitions, a [null] first record, a Provider B form without
    definitions) or yield a non-null entry (a Provider B payload without
    headword). *)
Lemma adapters_throw_on_thin_payload_counterexample :
  normalizeMwData (JArr [JObj []]) = Throw /\
  normalizeMwData (JArr [JNull]) = Throw /\
  normalizeGeminiData (JObj [("word", JStr "run"); ("forms", JArr [JObj []])]) = Throw /\
  exists r, normalizeGeminiData gem_wordless_payload = Ok r /\ r <> JNull.
Proof.
  split; [reflexivity | split; [reflexivity | split; [reflexivity |]]].
  eexists. split; [reflexivity | discriminate].
Qed.

(* ------------------------------------------------------------------ *)
(** ** The projector, step by step *)

(** Line 69: the effective example count. *)
Definition eff_count (ec : jv) : jv := if negb (strict_eq ec JUndef) then ec else JNum 1.

(** Lines 73-75: the senses kept for an effective scope. *)
Definition retained (scope : jv) (defs : list jv) : list jv :=
  if strict_eq scope (JStr "relevant") && Nat.ltb 1 (length defs)
  then [nth 0 defs JUndef] else defs.

Lemma adp_eval (data settings ds ec d : jv) (defs' : list jv) :
  get settings "definitionScope" = Ok ds -> get settings "exampleCount" = Ok ec ->
  get data "definition" = Ok d -> iter_elems d = Ok defs' ->
  applyDisplayPreferences data settings =
  bind (mapM (trim_def (eff_count ec)) (retained (js_or ds (JStr "relevant")) defs'))
       (fun fin => Ok (JObj (set_prop "definition" (JArr fin) (own_props data)))).
Proof.
  intros H1 H2 H3 H4. unfold applyDisplayPreferences. rewrite H1, H2, H3.
  cbn [bind]. rewrite H4. reflexivity.
Qed.

Lemma adp_ok_inv (data settings r : jv) :
  applyDisplayPreferences data settings = Ok r ->
  exists ds ec d defs fin,
    get settings "definitionScope" = Ok ds /\ get settings "exampleCount" = Ok ec /\
    get data "definition" = Ok d /\ iter_elems d = Ok defs /\
    mapM (trim_def (eff_count ec)) (retained (js_or ds (JStr "relevant")) defs) = Ok fin /\
    r = JObj (set_prop "definition" (JArr fin) (own_props data)).
Proof.
  unfold applyDisplayPreferences. intros H. inv_ok H. subst r.
  do 5 eexists. repeat split; eauto.
Qed.

Lemma get_projected (fin : list jv) (data : jv) (k : string) :
  get (JObj (set_prop "definition" (JArr fin) (own_props data))) k =
  if String.eqb k "definition" then Ok (JArr fin) else get (JObj (own_props data)) k.
Proof. apply get_set_prop. Qed.

Lemma retained_length (sc : jv) (defs : list jv) :
  length (retained sc defs) =
  if strict_eq sc (JStr "relevant") then Nat.min 1 (length defs) else length defs.
Proof.
  unfold retained. destruct (strict_eq sc (JStr "relevant")); cbn [andb]; [|reflexivity].
  destruct (Nat.ltb 1 (length defs)) eqn:E; cbn [length].
  - apply Nat.ltb_lt in E. lia.
  - apply Nat.ltb_ge in E. lia.
Qed.

Lemma retained_nth (sc : jv) (defs : list jv) (i : nat) (x : jv) :
  nth_error (retained sc defs) i = Some x -> nth_error defs i = Some x.
Proof.
  unfold retained. destruct (_ && _) eqn:E; auto.
  apply andb_true_iff in E as [_ E]. apply Nat.ltb_lt in E.
  destruct defs as [|y ys]; simpl in *; [lia|].
  destruct i as [|[|i]]; simpl; try discriminate; auto.
Qed.

Lemma retained_fixed (sc : jv) (xs ys : list jv) :
  length ys = length (retained sc xs) -> retained sc ys = ys.
Proof.
  intros H. rewrite retained_length in H. unfold retained.
  destruct (strict_eq sc (JStr "relevant")); simpl; [|reflexivity].
  destruct (Nat.ltb 1 (length ys)) eqn:E; [|reflexivity].
  apply Nat.ltb_lt in E. lia.
Qed.

Lemma set_prop_idem {A} (k : string) (v : A) fs :
  set_prop k v (set_prop k v fs) = set_prop k v fs.
Proof.
  unfold set_prop at 2. destruct (existsb _ fs) eqn:E.
  - unfold set_prop. rewrite E.
    assert (T : existsb (fun kv => String.eqb (fst kv) k)
                  (map (fun kv => if String.eqb (fst kv) k then (k, v) else kv) fs) = true).
    { apply existsb_exists in E as [[k0 v0] [Hin Hk]]. apply existsb_exists.
      exists (k, v). split; [|apply String.eqb_refl].
      apply in_map_iff. exists (k0, v0). simpl in Hk |- *. rewrite Hk. auto. }
    rewrite T, map_map. apply map_ext. intros [k0 v0]; simpl.
    destruct (String.eqb k0 k) eqn:E0; simpl; [rewrite String.eqb_refl; reflexivity|].
    rewrite E0. reflexivity.
  - unfold set_prop. rewrite E, existsb_app, E. cbn [existsb fst].
    rewrite String.eqb_refl. cbn [orb].
    rewrite map_app. cbn [map fst]. rewrite String.eqb_refl. f_equal.
    rewrite <- (map_id fs) at 2. apply map_ext_in. intros [k0 v0] Hin. simpl.
    destruct (String.eqb k0 k) eqn:E0; auto.
    exfalso. assert (existsb (fun kv => String.eqb (fst kv) k) fs = true) as T
      by (apply existsb_exists; exists (k0, v0); auto). congruence.
Qed.

Lemma substring0_length (m : nat) (s : string) : (String.length (substring 0 m s) <= m)%nat.
Proof.
  revert m; induction s as [|c s IH]; intros [|m]; simpl; try lia.
  specialize (IH m). lia.
Qed.

Lemma js_gt_num (a k : Z) : js_gt (JNum a) (JNum k) = Z.gtb a k.
Proof. reflexivity. Qed.

Lemma slice_end_num (len k : Z) : 0 <= k -> slice_end len (JNum k) = Z.min k len.
Proof.
  intros Hk. unfold slice_end. simpl.
  destruct (k <? 0) eqn:E; [apply Z.ltb_lt in E; lia | reflexivity].
Qed.

Lemma slice0_arr (xs : list jv) (k : Z) :
  0 <= k -> slice0 (JArr xs) (JNum k) = Ok (JArr (firstn (Z.to_nat (Z.min k (Z.of_nat (length xs)))) xs)).
Proof. intros Hk. unfold slice0. rewrite slice_end_num by exact Hk. reflexivity. Qed.

Lemma slice0_str (s : string) (k : Z) :
  0 <= k ->
  slice0 (JStr s) (JNum k) = Ok (JStr (substring 0 (Z.to_nat (Z.min k (Z.of_nat (String.length s)))) s)).
Proof. intros Hk. unfold slice0. rewrite slice_end_num by exact Hk. reflexivity. Qed.

(** Re-trimming an already trimmed sense changes nothing. *)
Lemma trim_def_idem (k : Z) (d d' : jv) :
  0 <= k -> trim_def (JNum k) d = Ok d' -> trim_def (JNum k) d' = Ok d'.
Proof.
  intros Hk H. unfold trim_def in H.
  remember (own_props d) as nd eqn:End. clear End.
  cbn [bind get] in H.
  set (ex := match assoc "example" nd with Some x => x | None => JUndef end) in H.
  destruct (truthy ex) eqn:Tex; cbn [bind] in H.
  - destruct (get ex "length") as [n|] eqn:En; cbn [bind] in H; [|discriminate].
    destruct (js_gt n (JNum k)) eqn:Gt.
    + destruct (slice0 ex (JNum k)) as [ex'|] eqn:Es; cbn [bind] in H; [|discriminate].
      injection H as <-. unfold trim_def. cbn [own_props].
      rewrite get_set_prop, String.eqb_refl. cbn [bind].
      destruct (truthy ex') eqn:Tex'; [|reflexivity].
      destruct ex; try discriminate Es;
        [rewrite slice0_str in Es by lia | rewrite slice0_arr in Es by lia];
        injection Es as <-; cbn [get]; rewrite String.eqb_refl; cbn [bind];
        rewrite js_gt_num.
      * pose proof (substring0_length (Z.to_nat (Z.min k (Z.of_nat (String.length s)))) s).
        replace (Z.gtb _ k) with false; [reflexivity|].
        symmetry. rewrite Z.gtb_ltb. apply Z.ltb_ge. lia.
      * rewrite length_firstn.
        replace (Z.gtb _ k) with false; [reflexivity|].
        symmetry. rewrite Z.gtb_ltb. apply Z.ltb_ge. lia.
    + cbn [bind] in H. injection H as <-. unfold trim_def. cbn [own_props bind get].
      fold ex. rewrite Tex. cbn [bind]. rewrite En. cbn [bind]. rewrite Gt. reflexivity.
  - injection H as <-. unfold trim_def. cbn [own_props bind get].
    fold ex. rewrite Tex. reflexivity.
Qed.

Lemma mapM_fix {A} (f : A -> res A) (xs ys : list A) :
  (forall x y, f x = Ok y -> f y = Ok y) -> mapM f xs = Ok ys -> mapM f ys = Ok ys.
Proof.
  intros Hf. revert ys; induction xs as [|x xs IH]; simpl; intros ys H.
  - injection H as <-. reflexivity.
  - inv_ok H. subst ys. simpl. rewrite (Hf _ _ Ha). simpl. rewrite (IH _ Ha0). reflexivity.
Qed.

Lemma eff_count_pref (settings ec : jv) :
  count_pref settings -> get settings "exampleCount" = Ok ec ->
  exists k, 0 <= k /\ eff_count ec = JNum k.
Proof.
  intros [H|[k [Hk H]]] H'; rewrite H in H'; injection H' as <-.
  - exists 1. split; [lia | reflexivity].
  - exists k. split; [exact Hk | reflexivity].
Qed.

Lemma get_obj_ok (fs : list (string * jv)) (k : string) : exists v, get (JObj fs) k = Ok v.
Proof. simpl. eauto. Qed.

Lemma retained_In (sc : jv) (defs : list jv) (x : jv) :
  In x (retained sc defs) -> In x defs.
Proof.
  intros H. apply In_nth_error in H as [i Hi]. apply retained_nth in Hi.
  eapply nth_error_In; eauto.
Qed.

(** Senses of the entry shape: objects whose [example] is absent or an array. *)
Definition is_sense (d : jv) : bool :=
  match d with
  | JObj gs =>
      match assoc "example" gs with
      | None | Some JUndef | Some (JArr _) => true
      | Some _ => false
      end
  | _ => false
  end.

(** Two senses agree on every property other than [example]. *)
Definition sense_agrees (d d' : jv) : Prop :=
  forall key, key <> "example" -> get d' key = get d key.

Ltac ex_undef :=
  first [ intros Hx; discriminate Hx
        | intros Hx; revert Hx; cbn [get]; rewrite ?get_set_prop, ?String.eqb_refl; intros Hx;
          discriminate Hx
        | intros _; cbn [get]; match goal with Ea : assoc _ _ = _ |- _ => rewrite Ea end;
          reflexivity ].

Lemma trim_def_sense (c d : jv) :
  is_sense d = true ->
  exists d', trim_def c d = Ok d' /\ sense_agrees d d' /\
             (get d "example" = Ok JUndef -> get d' "example" = Ok JUndef).
Proof.
  destruct d as [| | | | | |gs]; try discriminate. unfold is_sense. intros Hs.
  unfold trim_def. cbn [own_props bind get].
  destruct (assoc "example" gs) as [ex|] eqn:Ea.
  - destruct ex; cbn iota in Hs; try discriminate Hs; cbn [truthy bind].
    + exists (JObj gs). split; [reflexivity | split; [intros key _; reflexivity | ex_undef]].
    + cbn [get]. rewrite String.eqb_refl. cbn [bind].
      destruct (js_gt _ c); cbn [slice0 bind].
      * eexists. split; [reflexivity | split].
        -- intros key Hk. rewrite get_set_prop.
           apply String.eqb_neq in Hk. rewrite Hk. reflexivity.
        -- ex_undef.
      * exists (JObj gs). split; [reflexivity | split; [intros key _; reflexivity | ex_undef]].
  - cbn [truthy bind].
    exists (JObj gs). split; [reflexivity | split; [intros key _; reflexivity | ex_undef]].
Qed.

Lemma trim_def_examples (k : Z) (gs : list (string * jv)) (xs : list jv) (d' : jv) :
  0 <= k -> get (JObj gs) "example" = Ok (JArr xs) ->
  trim_def (JNum k) (JObj gs) = Ok d' ->
  get d' "example" = Ok (JArr (firstn (Z.to_nat k) xs)).
Proof.
  intros Hk Hx H. unfold trim_def in H. cbn [own_props] in H. rewrite Hx in H.
  cbn [bind truthy get] in H. rewrite String.eqb_refl in H. cbn [bind] in H.
  rewrite js_gt_num in H.
  destruct (Z.gtb (Z.of_nat (length xs)) k) eqn:G.
  - rewrite slice0_arr in H by exact Hk. cbn [bind] in H. injection H as <-.
    rewrite get_set_prop, String.eqb_refl. do 3 f_equal.
    rewrite Z.gtb_ltb in G. apply Z.ltb_lt in G. f_equal. lia.
  - injection H as <-. rewrite Hx. rewrite firstn_all2; [reflexivity|].
    rewrite Z.gtb_ltb in G. apply Z.ltb_ge in G. lia.
Qed.

(** The projection of an entry whose senses have the entry shape. *)
Lemma project_ok (fs sfs : list (string * jv)) (ds : list jv) :
  get (JObj fs) "definition" = Ok (JArr ds) -> forallb is_sense ds = true ->
  exists sc ec fin,
    get (JObj sfs) "definitionScope" = Ok sc /\ get (JObj sfs) "exampleCount" = Ok ec /\
    applyDisplayPreferences (JObj fs) (JObj sfs) = Ok (JObj (set_prop "definition" (JArr fin) fs)) /\
    length fin = length (retained (js_or sc (JStr "relevant")) ds) /\
    forall i d', nth_error fin i = Some d' ->
      exists d, nth_error ds i = Some d /\ is_sense d = true /\ trim_def (eff_count ec) d = Ok d'.
Proof.
  intros Hd Hs.
  destruct (get_obj_ok sfs "definitionScope") as [sc Hsc].
  destruct (get_obj_ok sfs "exampleCount") as [ec Hec].
  assert (Hsense : forall x, In x ds -> is_sense x = true)
    by (intros x Hx; rewrite forallb_forall in Hs; auto).
  destruct (mapM_ok_exists (trim_def (eff_count ec)) (retained (js_or sc (JStr "relevant")) ds))
    as [fin Hfin].
  { intros x Hx. apply retained_In in Hx.
    destruct (trim_def_sense (eff_count ec) x (Hsense x Hx)) as [d' [Hd' _]]. eauto. }
  exists sc, ec, fin. split; [exact Hsc | split; [exact Hec | split; [| split]]].
  - rewrite (adp_eval _ _ sc ec (JArr ds) ds Hsc Hec Hd eq_refl), Hfin. reflexivity.
  - eapply mapM_length; exact Hfin.
  - intros i d' Hi. destruct (mapM_nth _ _ _ i d' Hfin Hi) as [x [Hx Hxd]].
    exists x. apply retained_nth in Hx. split; [exact Hx | split; [|exact Hxd]].
    apply Hsense. eapply nth_error_In; eauto.
Qed.

(* ------------------------------------------------------------------ *)
(** ** Sample inputs *)

(** A Provider B payload with two forms. *)
Definition gem_two_forms : jv :=
  JObj [("word", JStr "run");
        ("forms", JArr [JObj [("partOfSpeech", JStr "verb");
                              ("definitions", JArr [JObj [("definition", JStr "move fast");
                                                          ("examples", JArr [JStr "He can run fast."])]])];
                        JObj [("partOfSpeech", JStr "noun");
                              ("definitions", JArr [JObj [("definition", JStr "an act of running")]])]])].

(** The senses and the properties of an entry with two senses. *)
Definition sample_senses : list jv :=
  [JObj [("pos", JStr "verb"); ("text", JStr "move fast");
         ("example", JArr [JObj [("text", JStr "He can run fast.")];
                           JObj [("text", JStr "Run!")];
                           JObj [("text", JStr "She ran home.")]])];
   JObj [("pos", JStr "noun"); ("text", JStr "an act of running"); ("example", JArr [])]].

Definition sample_fields : list (string * jv) :=
  [("word", JStr "run"); ("pos", JArr [JStr "verb"; JStr "noun"]); ("verbs", JArr []);
   ("definition", JArr sample_senses)].

(* ------------------------------------------------------------------ *)
(** ** Parallel [pos] and [definition] arrays *)

(** C2 (as the code does it): both adapters emit [pos] and [definition]
    arrays of equal length.  The projector copies [pos] unchanged and
    replaces [definition] by the retained senses, so the two stay parallel
    exactly when the effective scope is not "relevant" or there is at most
    one sense; under "relevant" with N > 1 senses the projected entry keeps
    N parts of speech for one sense. *)
Theorem entry_pos_parallel :
  (forall p r, normalizeMwData p = Ok r -> r <> JNull ->
     exists ps ds, get r "pos" = Ok (JArr ps) /\ get r "definition" = Ok (JArr ds) /\
                   length ps = length ds) /\
  (forall p r, normalizeGeminiData p = Ok r -> r <> JNull ->
     exists ps ds, get r "pos" = Ok (JArr ps) /\ get r "definition" = Ok (JArr ds) /\
                   length ps = length ds) /\
  (forall fs s r ps ds0 sc,
     get (JObj fs) "pos" = Ok (JArr ps) -> get (JObj fs) "definition" = Ok (JArr ds0) ->
     get s "definitionScope" = Ok sc -> applyDisplayPreferences (JObj fs) s = Ok r ->
     exists ds, get r "pos" = Ok (JArr ps) /\ get r "definition" = Ok (JArr ds) /\
       length ds = (if strict_eq (js_or sc (JStr "relevant")) (JStr "relevant")
                    then Nat.min 1 (length ds0) else length ds0) /\
       (length ps = length ds0 ->
        (length ps = length ds <->
         strict_eq (js_or sc (JStr "relevant")) (JStr "relevant") = false \/
         (length ds0 <= 1)%nat))).
Proof.
  split; [|split].
  - intros p r H Hn.
    destruct (mw_ok_inv p r H Hn) as (m0 & pron & fl & sd & sd0 & ex & meta & id & _ & _ & _ & _ &
      _ & _ & _ & _ & ->).
    do 2 eexists. split; [reflexivity | split; [reflexivity | reflexivity]].
  - intros p r H Hn.
    destruct (gem_ok_inv p r H Hn) as (fs & defs & pr & w & word & tr & poss &
      _ & _ & _ & _ & _ & _ & Hposs & ->).
    exists poss, defs. split; [reflexivity | split; [reflexivity |]].
    eapply mapM_length; exact Hposs.
  - intros fs s r ps ds0 sc Hp Hd Hsc H.
    destruct (adp_ok_inv _ _ _ H) as (ds' & ec & d & defs & fin & Hds & Hec & Hd' & Hdefs &
      Hfin & ->).
    rewrite Hsc in Hds. injection Hds as <-. rewrite Hd in Hd'. injection Hd' as <-.
    cbn [iter_elems] in Hdefs. injection Hdefs as <-.
    exists fin. rewrite !get_projected. split; [exact Hp | split; [reflexivity |]].
    apply mapM_length in Hfin. rewrite Hfin, retained_length.
    destruct (strict_eq (js_or sc (JStr "relevant")) (JStr "relevant")); split; auto.
    + intros Hl. split; [intros E; right; lia | intros [C|C]; [discriminate C | lia]].
    + intros Hl. split; [intros _; left; reflexivity | intros _; lia].
Qed.

Lemma entry_pos_parallel_witness :
  (exists r, normalizeGeminiData gem_two_forms = Ok r /\
     exists ps ds, get r "pos" = Ok (JArr ps) /\ get r "definition" = Ok (JArr ds) /\
                   length ps = length ds) /\
  (exists r, applyDisplayPreferences (JObj sample_fields) (JObj [("definitionScope", JStr "all")]) = Ok r /\
     exists ds, get r "pos" = Ok (JArr [JStr "verb"; JStr "noun"]) /\
                get r "definition" = Ok (JArr ds) /\ length ds = 2%nat).
Proof.
  destruct entry_pos_parallel as [_ [Hgem Hproj]]. split.
  - destruct (normalizeGeminiData gem_two_forms) as [r|] eqn:E.
    + assert (Hn : r <> JNull) by (vm_compute in E; injection E as <-; discriminate).
      exists r. split; [reflexivity |]. exact (Hgem gem_two_forms r E Hn).
    + vm_compute in E. discriminate E.
  - destruct (applyDisplayPreferences (JObj sample_fields) (JObj [("definitionScope", JStr "all")]))
      as [r|] eqn:E.
    + exists r. split; [reflexivity |].
      destruct (Hproj sample_fields (JObj [("definitionScope", JStr "all")]) r
                      [JStr "verb"; JStr "noun"] sample_senses (JStr "all"))
        as (ds & H1 & H2 & H3 & _); [reflexivity | reflexivity | reflexivity | exact E |].
      exists ds. split; [exact H1 | split; [exact H2 | rewrite H3; reflexivity]].
    + vm_compute in E. discriminate E.
Defined.

(** C2 refuted as stated: the Provider B entry for a payload with two forms
    has two parts of speech and two senses, and its projection under the
    default scope keeps both parts of speech but a single sense. *)
Lemma entry_pos_parallel_counterexample :
  exists r e, normalizeGeminiData gem_two_forms = Ok r /\
    applyDisplayPreferences r (JObj []) = Ok e /\
    get e "pos" = Ok (JArr [JStr "verb"; JStr "noun"]) /\
    exists ds, get e "definition" = Ok (JArr ds) /\ length ds = 1%nat.
Proof.
  do 2 eexists. split; [reflexivity | split; [reflexivity | split; [reflexivity |]]].
  eexists. split; [reflexivity | reflexivity].
Qed.

(* ------------------------------------------------------------------ *)
(** ** Idempotence of the projector *)

(** C4: for display preferences whose [exampleCount] is absent or a
    non-negative integer (and any [definitionScope]), projecting an already
    projected entry returns it unchanged. *)
Theorem applyDisplayPreferences_idempotent (e s e' : jv) :
  count_pref s -> applyDisplayPreferences e s = Ok e' -> applyDisplayPreferences e' s = Ok e'.
Proof.
  intros Hc H.
  destruct (adp_ok_inv e s e' H) as (ds & ec & d & defs & fin & Hds & Hec & Hd & Hdefs & Hfin & ->).
  destruct (eff_count_pref s ec Hc Hec) as [k [Hk Hkc]].
  rewrite (adp_eval _ s ds ec (JArr fin) fin Hds Hec); [| rewrite get_projected; reflexivity
                                                      | reflexivity].
  rewrite (retained_fixed _ defs fin) by (eapply mapM_length; exact Hfin).
  rewrite Hkc in Hfin |- *.
  rewrite (mapM_fix _ _ _ (fun x y => trim_def_idem k x y Hk) Hfin).
  cbn [bind own_props]. rewrite set_prop_idem. reflexivity.
Qed.

Lemma applyDisplayPreferences_idempotent_witness :
  exists e', applyDisplayPreferences (JObj sample_fields) (JObj [("exampleCount", JNum 2)]) = Ok e' /\
             applyDisplayPreferences e' (JObj [("exampleCount", JNum 2)]) = Ok e'.
Proof.
  destruct (applyDisplayPreferences (JObj sample_fields) (JObj [("exampleCount", JNum 2)]))
    as [e'|] eqn:E.
  - exists e'. split; [reflexivity |].
    apply (applyDisplayPreferences_idempotent (JObj sample_fields)); [| exact E].
    right. exists 2. split; [lia | reflexivity].
  - vm_compute in E. discriminate E.
Defined.

(* ------------------------------------------------------------------ *)
(** ** Retained senses *)

(** C5: for an entry object whose [definition] is an array of N senses
    (objects whose [example] is absent or an array) and any settings object,
    the projection succeeds; its i-th sense is the original i-th sense on
    every property other than [example]; it has min(1, N) senses when the
    effective scope is "relevant" (the setting absent or "relevant"), and all
    N senses when the scope is "all". *)
Theorem project_scope_senses (fs sfs : list (string * jv)) (ds : list jv) :
  get (JObj fs) "definition" = Ok (JArr ds) -> forallb is_sense ds = true ->
  exists r ds', applyDisplayPreferences (JObj fs) (JObj sfs) = Ok r /\
    get r "definition" = Ok (JArr ds') /\
    (forall i d', nth_error ds' i = Some d' ->
       exists d, nth_error ds i = Some d /\ sense_agrees d d') /\
    ((get (JObj sfs) "definitionScope" = Ok JUndef \/
      get (JObj sfs) "definitionScope" = Ok (JStr "relevant")) ->
     length ds' = Nat.min 1 (length ds)) /\
    (get (JObj sfs) "definitionScope" = Ok (JStr "all") -> length ds' = length ds).
Proof.
  intros Hd Hs.
  destruct (project_ok fs sfs ds Hd Hs) as (sc & ec & fin & Hsc & Hec & Hp & Hlen & Hnth).
  exists (JObj (set_prop "definition" (JArr fin) fs)), fin.
  split; [exact Hp | split; [rewrite get_set_prop; reflexivity | split; [| split]]].
  - intros i d' Hi. destruct (Hnth i d' Hi) as (d & Hdi & Hsd & Ht).
    destruct (trim_def_sense (eff_count ec) d Hsd) as (d'' & Ht' & Hag & _).
    rewrite Ht in Ht'. injection Ht' as <-. eauto.
  - intros [H|H]; rewrite Hsc in H; injection H as ->; rewrite Hlen, retained_length;
      reflexivity.
  - intros H. rewrite Hsc in H. injection H as ->. rewrite Hlen, retained_length. reflexivity.
Qed.

Lemma project_scope_senses_witness :
  exists r ds', applyDisplayPreferences (JObj sample_fields) (JObj []) = Ok r /\
    get r "definition" = Ok (JArr ds') /\ length ds' = 1%nat.
Proof.
  destruct (project_scope_senses sample_fields [] sample_senses) as (r & ds' & H1 & H2 & _ & Hrel & _);
    [reflexivity | reflexivity |].
  exists r, ds'. split; [exact H1 | split; [exact H2 |]].
  rewrite Hrel; [reflexivity | left; reflexivity].
Defined.

(* ------------------------------------------------------------------ *)
(** ** Example count *)

(** C6: for an entry object whose senses have the entry shape and settings
    whose [exampleCount] is a non-negative integer k, or absent (then k = 1),
    every retained sense's examples are the first k examples of the
    corresponding original sense (hence at most k of them, and all of them
    when there were at most k), and a sense without examples stays without. *)
Theorem project_example_count (fs sfs : list (string * jv)) (ds : list jv) (k : Z) :
  get (JObj fs) "definition" = Ok (JArr ds) -> forallb is_sense ds = true -> 0 <= k ->
  (get (JObj sfs) "exampleCount" = Ok (JNum k) \/
   (get (JObj sfs) "exampleCount" = Ok JUndef /\ k = 1)) ->
  exists r ds', applyDisplayPreferences (JObj fs) (JObj sfs) = Ok r /\
    get r "definition" = Ok (JArr ds') /\
    forall i d', nth_error ds' i = Some d' ->
      exists d, nth_error ds i = Some d /\
        (forall xs, get d "example" = Ok (JArr xs) ->
           get d' "example" = Ok (JArr (firstn (Z.to_nat k) xs)) /\
           (length (firstn (Z.to_nat k) xs) <= Z.to_nat k)%nat /\
           ((length xs <= Z.to_nat k)%nat -> firstn (Z.to_nat k) xs = xs)) /\
        (get d "example" = Ok JUndef -> get d' "example" = Ok JUndef).
Proof.
  intros Hd Hs Hk Hcount.
  destruct (project_ok fs sfs ds Hd Hs) as (sc & ec & fin & Hsc & Hec & Hp & _ & Hnth).
  exists (JObj (set_prop "definition" (JArr fin) fs)), fin.
  split; [exact Hp | split; [rewrite get_set_prop; reflexivity |]].
  assert (Hc : eff_count ec = JNum k)
    by (destruct Hcount as [H|[H ->]]; rewrite Hec in H; injection H as ->; reflexivity).
  intros i d' Hi. destruct (Hnth i d' Hi) as (d & Hdi & Hsd & Ht).
  rewrite Hc in Ht. exists d. split; [exact Hdi | split].
  - intros xs Hx. destruct d as [| | | | | |gs]; try discriminate Hsd.
    split; [eapply trim_def_examples; eauto |].
    split; [rewrite length_firstn; lia | intros Hl; apply firstn_all2; exact Hl].
  - destruct (trim_def_sense (JNum k) d Hsd) as (d'' & Ht' & _ & Hu).
    rewrite Ht in Ht'. injection Ht' as <-. exact Hu.
Qed.

Lemma project_example_count_witness :
  exists r ds', applyDisplayPreferences (JObj sample_fields) (JObj []) = Ok r /\
    get r "definition" = Ok (JArr ds') /\
    exists d', nth_error ds' 0 = Some d' /\
      get d' "example" = Ok (JArr [JObj [("text", JStr "He can run fast.")]]).
Proof.
  destruct (project_example_count sample_fields [] sample_senses 1) as (r & ds' & H1 & H2 & Hex);
    [reflexivity | reflexivity | lia | right; split; reflexivity |].
  exists r, ds'. split; [exact H1 | split; [exact H2 |]].
  destruct (nth_error ds' 0) as [d'|] eqn:E0.
  - exists d'. split; [reflexivity |].
    destruct (Hex 0%nat d' E0) as (d & Hd0 & Harr & _).
    cbn in Hd0. injection Hd0 as <-. destruct (Harr _ eq_refl) as [Hx _]. exact Hx.
  - exfalso. vm_compute in H1. injection H1 as <-. vm_compute in H2. injection H2 as <-.
    vm_compute in E0. discriminate E0.
Defined.

(* ------------------------------------------------------------------ *)
(** ** Character-level builtins used by the message listener *)

(** Strings are sequences of UTF-16 code units below 256 (one [ascii] per
    code unit). *)

Definition is_alnum (c : ascii) : bool :=
  let n := nat_of_ascii c in
  (Nat.leb 48 n && Nat.leb n 57) || (Nat.leb 65 n && Nat.leb n 90) ||
  (Nat.leb 97 n && Nat.leb n 122).

Definition in_chars (c : ascii) (set : string) : bool :=
  existsb (Ascii.eqb c) (list_ascii_of_string set).

(** Characters [encodeURIComponent] leaves alone. *)
Definition uri_unreserved (c : ascii) : bool := is_alnum c || in_chars c "-_.!~*'()".

Definition hex_upper (n : nat) : ascii :=
  ascii_of_nat (if Nat.ltb n 10 then 48 + n else 55 + n).

Definition hex_lower (n : nat) : ascii :=
  ascii_of_nat (if Nat.ltb n 10 then 48 + n else 87 + n).

(** One byte of UTF-8 as [%XY]. *)
Definition pct_byte (n : nat) : string :=
  String "%" (String (hex_upper (n / 16)) (String (hex_upper (n mod 16)) EmptyString)).

(** [encodeURIComponent] on one code unit: code units from 128 to 255 are
    two UTF-8 bytes.  The strings of this development hold code units below
    256 only: the three- and four-byte encodings of wider code units and
    surrogate pairs, and the [URIError] on a lone surrogate, are outside
    it. *)
Definition encode_char (c : ascii) : string :=
  if uri_unreserved c then String c EmptyString
  else let n := nat_of_ascii c in
       if Nat.ltb n 128 then pct_byte n
       else pct_byte (192 + n / 64) ++ pct_byte (128 + n mod 64).

Fixpoint encodeURIComponent (s : string) : string :=
  match s with
  | EmptyString => EmptyString
  | String c s' => encode_char c ++ encodeURIComponent s'
  end.

(** [n.toString(16)] for [n < 256]. *)
Definition radix16_lower (n : nat) : string :=
  if Nat.ltb n 16 then String (hex_lower n) EmptyString
  else String (hex_lower (n / 16)) (String (hex_lower (n mod 16)) EmptyString).

Definition sub_delim (c : ascii) : bool := in_chars c "!'()*".

(** Line 195: [s.replace(/[!'()*]/g, c => '%' + c.charCodeAt(0).toString(16))]. *)
Fixpoint escape_sub_delims (s : string) : string :=
  match s with
  | EmptyString => EmptyString
  | String c s' =>
      (if sub_delim c then String "%" (radix16_lower (nat_of_ascii c))
       else String c EmptyString) ++ escape_sub_delims s'
  end.

(** [s.toLowerCase()] on code units below 256: A-Z and the Latin-1 capitals
    (192-222 except 215) move up by 32. *)
Definition lower_char (c : ascii) : ascii :=
  let n := nat_of_ascii c in
  if (Nat.leb 65 n && Nat.leb n 90) || (Nat.leb 192 n && Nat.leb n 222 && negb (Nat.eqb n 215))
  then ascii_of_nat (n + 32) else c.

Fixpoint to_lower (s : string) : string :=
  match s with
  | EmptyString => EmptyString
  | String c s' => String (lower_char c) (to_lower s')
  end.

(** [\s] on code units below 256: tab to carriage return, space and the
    no-break space. *)
Definition is_regex_space (c : ascii) : bool :=
  let n := nat_of_ascii c in
  (Nat.leb 9 n && Nat.leb n 13) || Nat.eqb n 32 || Nat.eqb n 160.

Definition starts_with_space (s : string) : bool :=
  match s with String c _ => is_regex_space c | EmptyString => false end.

(** [s.split(/\s+/)]: the pieces between maximal runs of white space; a
    leading (trailing) run gives an empty first (last) piece. *)
Fixpoint split_ws (s : string) : list string :=
  match s with
  | EmptyString => [EmptyString]
  | String c s' =>
      let r := split_ws s' in
      if is_regex_space c then (if starts_with_space s' then r else EmptyString :: r)
      else match r with
           | w :: ws => String c w :: ws
           | [] => [String c EmptyString]
           end
  end.

(** Line 116: [word.split(/\s+/).filter(w => w.length > 0)]. *)
Definition words_of (s : string) : list string :=
  filter (fun w => Nat.ltb 0 (String.length w)) (split_ws s).

(* ------------------------------------------------------------------ *)
(** ** The message listener (lines 90-231)

    The listener is modelled as a function of the message, of the contents
    of the extension's local storage and of an oracle giving the outcome of
    every [fetch] followed by [res.json()].  It returns the value the
    listener returns synchronously, the trace of storage reads, fetches,
    storage writes and responses that the request causes (callbacks run in
    order; a single request is considered, so no other request touches the
    storage meanwhile), and the storage afterwards.  Console output is not
    modelled. *)

Inductive fetch_outcome : Type :=
| FetchFail              (* the request is rejected *)
| JsonFail               (* the body is not JSON: [res.json()] rejects *)
| JsonOk (v : jv).

Inductive err : Type :=
| ErrMsg (m : string)    (* [new Error(m)] *)
| ErrOpaque.             (* an engine error: TypeError, network or JSON failure *)

Inductive response : Type :=
| RSuccess (data tts : jv)
| RError (message : option string)   (* [None]: an engine-defined message *)
| RNoLanguage (message : string).

Inductive event : Type :=
| EGet (keys : list string)
| EFetch (url : string)
| ESet (key : string) (v : jv)
| ESend (r : response).

Definition store := list (string * jv).

(** [chrome.storage.local.get(keys)]: the object of the stored keys. *)
Definition storage_get (keys : list string) (st : store) : list (string * jv) :=
  flat_map (fun k => match assoc k st with Some v => [(k, v)] | None => [] end) keys.

(** [o.k] on an object literal's properties. *)
Definition fld (fs : list (string * jv)) (k : string) : jv :=
  match assoc k fs with Some v => v | None => JUndef end.

(** Promise outcomes. *)
Inductive pres (A : Type) : Type :=
| POk (a : A)
| PErr (e : err).
Arguments POk {A} a.
Arguments PErr {A} e.

Definition pbind {A B} (m : pres A) (k : A -> pres B) : pres B :=
  match m with POk a => k a | PErr e => PErr e end.

Definition of_res {A} (m : res A) : pres A :=
  match m with Ok a => POk a | Throw => PErr ErrOpaque end.

Definition err_message (e : err) : option string :=
  match e with ErrMsg m => Some m | ErrOpaque => None end.

(** [fetch(url).then(res => res.json())] *)
Definition fetch_json (fetch : string -> fetch_outcome) (url : string) : pres jv :=
  match fetch url with JsonOk v => POk v | _ => PErr ErrOpaque end.

(** [fetch(url).then(res => res.json().catch(() => null))] *)
Definition fetch_json_or_null (fetch : string -> fetch_outcome) (url : string) : pres jv :=
  match fetch url with JsonOk v => POk v | JsonFail => POk JNull | FetchFail => PErr ErrOpaque end.

Definition gemini_not_found : string := "Gemini AI definition not found or invalid format.".
Definition definition_not_found : string := "Definition not found or API returned invalid format.".
Definition mw_key_missing : string := "Merriam-Webster API key is not set.".
Definition no_language : string := "Please select a target language in options setting to proceed".

Definition settings_keys : list string :=
  ["preferredSource"; "mwApiKey"; "targetLanguage"; "definitionScope"; "exampleCount"; "ttsEnabled"].

(** [normalizedGemini.pronunciation[0]] *)
Definition pron0 (ng : jv) : res jv :=
  let* prs := get ng "pronunciation" in idx prs 0.

(** [normalizedGemini.pronunciation[0].k = x], on the shape produced by
    [normalizeGeminiData] (a [pronunciation] array whose first element is an
    object); other shapes stand for the failing assignment. *)
Definition set_pron0 (ng : jv) (k : string) (x : jv) : res jv :=
  match ng with
  | JObj fs =>
      match assoc "pronunciation" fs with
      | Some (JArr (JObj pfs :: rest)) =>
          Ok (JObj (set_prop "pronunciation" (JArr (JObj (set_prop k x pfs) :: rest)) fs))
      | _ => Throw
      end
  | _ => Throw
  end.

(** Lines 137-145: the Cambridge pronunciation merged into the Provider B entry. *)
Definition cambridge_merge (ng cambridgeData : jv) : res jv :=
  let* c := if truthy cambridgeData then
              let* p := get cambridgeData "pronunciation" in
              if truthy p then let* n := get p "length" in Ok (js_gt n (JNum 0))
              else Ok false
            else Ok false in
  if c then
    let* prs := get cambridgeData "pronunciation" in
    let* found := arr_call prs (js_find (fun p => let* u := get p "url" in Ok (truthy u))) in
    let* cambridgePron := if truthy found then Ok found else idx prs 0 in
    if truthy cambridgePron then
      let* cu := get cambridgePron "url" in
      let* ng1 := set_pron0 ng "url" (js_or cu (JStr "")) in
      let* p0 := pron0 ng1 in
      let* cur := get p0 "pron" in
      let* c2 := if negb (truthy cur) then let* cp := get cambridgePron "pron" in Ok (truthy cp)
                 else Ok false in
      if c2 then let* cp := get cambridgePron "pron" in set_pron0 ng1 "pron" cp
      else Ok ng1
    else Ok ng
  else Ok ng.

(** Lines 111-113: the Provider B request URL. *)
Definition gemini_url (word : string) (targetLanguage : jv) : string :=
  let langParam := if truthy targetLanguage && negb (strict_eq targetLanguage (JStr "none"))
                   then "?lang=" ++ encodeURIComponent (to_string targetLanguage) else "" in
  "http://localhost:3000/api/gemini/" ++ encodeURIComponent word ++ langParam.

Definition cambridge_url (word : string) : string :=
  "http://localhost:3000/api/dictionary/en/" ++ encodeURIComponent word.

(** Lines 110-148: the fetches and the promise of the Provider B branch. *)
Definition gemini_request (word : string) (targetLanguage : jv) (fetch : string -> fetch_outcome)
    : list event * pres jv :=
  let geminiUrl := gemini_url word targetLanguage in
  let words := words_of word in
  if Nat.ltb 1 (length words) then
    ([EFetch geminiUrl],
     pbind (fetch_json fetch geminiUrl) (fun geminiData =>
     pbind (of_res (normalizeGeminiData geminiData)) (fun ng =>
       if truthy ng then POk ng else PErr (ErrMsg gemini_not_found))))
  else
    let cambridgeUrl := cambridge_url word in
    ([EFetch geminiUrl; EFetch cambridgeUrl],
     pbind (fetch_json fetch geminiUrl) (fun geminiData =>
     pbind (fetch_json_or_null fetch cambridgeUrl) (fun cambridgeData =>
     pbind (of_res (normalizeGeminiData geminiData)) (fun ng =>
       if truthy ng then of_res (cambridge_merge ng cambridgeData)
       else PErr (ErrMsg gemini_not_found))))).

(** Lines 110-161: the fetches and the promise for the preferred source, or
    [None] when the Merriam-Webster key is missing (lines 150-153). *)
Definition definition_request (word : string) (settings : list (string * jv))
    (fetch : string -> fetch_outcome) : option (list event * pres jv) :=
  let source := js_or (fld settings "preferredSource") (JStr "cambridge") in
  let mwApiKey := fld settings "mwApiKey" in
  let targetLanguage := js_or (fld settings "targetLanguage") (JStr "none") in
  if strict_eq source (JStr "gemini") then Some (gemini_request word targetLanguage fetch)
  else if strict_eq source (JStr "merriam-webster") then
    if negb (truthy mwApiKey) then None
    else
      let apiUrl := "https://www.dictionaryapi.com/api/v3/references/collegiate/json/" ++ word
                      ++ "?key=" ++ to_string mwApiKey in
      Some ([EFetch apiUrl], pbind (fetch_json fetch apiUrl) (fun d => of_res (normalizeMwData d)))
  else
    let apiUrl := "http://localhost:3000/api/dictionary/en/" ++ word in
    Some ([EFetch apiUrl], fetch_json fetch apiUrl).

(** Lines 163-168: the callback receiving the adapter's result. *)
Definition accept_definition (settings : list (string * jv)) (fullData : jv) : pres jv :=
  if negb (truthy fullData) then PErr (ErrMsg definition_not_found) else
  pbind (of_res (get fullData "word")) (fun w =>
    if negb (truthy w) then PErr (ErrMsg definition_not_found) else
    of_res (applyDisplayPreferences fullData (JObj settings))).

Definition lookup_settings (st : store) : list (string * jv) := storage_get settings_keys st.

(** Lines 95-98: the cache key of a request. *)
Definition lookup_key (word : string) (st : store) : string :=
  let settings := lookup_settings st in
  displaySettingsCacheKey (js_or (fld settings "preferredSource") (JStr "cambridge")) word
    (fld settings "definitionScope") (fld settings "exampleCount")
    (js_or (fld settings "targetLanguage") (JStr "none")).

Definition lookup_tts (st : store) : jv := js_or (fld (lookup_settings st) "ttsEnabled") (JBool false).

(** Lines 94-176: a [getDefinition] request for the lower-cased [word]. *)
Definition lookup_flow (word : string) (st : store) (fetch : string -> fetch_outcome)
    : list event * store :=
  let settings := lookup_settings st in
  let key := lookup_key word st in
  let tts := lookup_tts st in
  let result := storage_get [key] st in
  let pre := [EGet settings_keys; EGet [key]] in
  if truthy (fld result key) then ((pre ++ [ESend (RSuccess (fld result key) tts)])%list, st)
  else
    match definition_request word settings fetch with
    | None => ((pre ++ [ESend (RError (Some mw_key_missing))])%list, st)
    | Some (fetches, apiPromise) =>
        match pbind apiPromise (accept_definition settings) with
        | POk finalData =>
            ((pre ++ fetches ++ [ESet key finalData; ESend (RSuccess finalData tts)])%list,
             set_prop key finalData st)
        | PErr e => ((pre ++ fetches ++ [ESend (RError (err_message e))])%list, st)
        end
  end.

(** The cache key of a sentence translation (lines 195-198). *)
Definition sentence_key (sentence : jv) (targetLanguage : jv) : string :=
  "qdp_sentence_" ++ escape_sub_delims (encodeURIComponent (to_string sentence)) ++ "_"
    ++ to_string targetLanguage.

(** Lines 206-208: the URL of the translation request. *)
Definition translate_url (sentence targetLanguage : jv) : string :=
  "http://localhost:3000/api/translate/" ++ encodeURIComponent (to_string sentence)
    ++ "?lang=" ++ encodeURIComponent (to_string targetLanguage).

(** Lines 211-218: the callback receiving the parsed body. *)
Definition accept_translation (data : jv) : pres jv :=
  pbind (of_res (get data "error")) (fun e =>
    if truthy e then PErr (ErrMsg (to_string e)) else POk data).

Definition translate_settings_keys : list string := ["targetLanguage"; "ttsEnabled"].

Definition translate_language (st : store) : jv :=
  fld (storage_get translate_settings_keys st) "targetLanguage".

Definition translate_tts (st : store) : jv :=
  js_or (fld (storage_get translate_settings_keys st) "ttsEnabled") (JBool false).

(** Lines 183-227: a [translateSentence] request. *)
Definition translate_flow (sentence : jv) (st : store) (fetch : string -> fetch_outcome)
    : list event * store :=
  let targetLanguage := translate_language st in
  let tts := translate_tts st in
  let pre := [EGet translate_settings_keys] in
  if negb (truthy targetLanguage) || strict_eq targetLanguage (JStr "none") then
    ((pre ++ [ESend (RNoLanguage no_language)])%list, st)
  else
    let cacheKey := sentence_key sentence targetLanguage in
    let result := storage_get [cacheKey] st in
    let pre' := (pre ++ [EGet [cacheKey]])%list in
    if truthy (fld result cacheKey) then ((pre' ++ [ESend (RSuccess (fld result cacheKey) tts)])%list, st)
    else
      let translateUrl := translate_url sentence targetLanguage in
      match pbind (fetch_json fetch translateUrl) accept_translation with
      | POk data =>
          ((pre' ++ [EFetch translateUrl; ESet cacheKey data; ESend (RSuccess data tts)])%list,
           set_prop cacheKey data st)
      | PErr e => ((pre' ++ [EFetch translateUrl; ESend (RError (err_message e))])%list, st)
      end.

(** Lines 90-231: the listener.  It returns [true] for the two request
    types it answers (keeping the response channel open) and [undefined]
    otherwise; a throw stands for an exception raised synchronously. *)
Definition onMessage (message : jv) (st : store) (fetch : string -> fetch_outcome)
    : res (jv * (list event * store)) :=
  let* ty := get message "type" in
  if strict_eq ty (JStr "getDefinition") then
    let* w := get message "word" in
    let* word := str_call w to_lower in
    Ok (JBool true, lookup_flow word st fetch)
  else if strict_eq ty (JStr "translateSentence") then
    let* sentence := get message "text" in
    Ok (JBool true, translate_flow sentence st fetch)
  else Ok (JUndef, ([], st)).

(** [String(v)], a template literal or [encodeURIComponent(v)] converts
    [v] without throwing: no object on the way has an own [toString] field
    (a JSON value for it is never callable, and the inherited [valueOf]
    returns the object, so the conversion raises a [TypeError]); an array
    converts its elements. *)
Fixpoint to_string_safe (v : jv) : bool :=
  match v with
  | JObj fs => negb (existsb (fun kv => String.eqb (fst kv) "toString") fs)
  | JArr xs =>
      (fix go (ys : list jv) : bool :=
         match ys with [] => true | y :: ys' => to_string_safe y && go ys' end) xs
  | _ => true
  end.

(* ------------------------------------------------------------------ *)
(** ** Properties of the encoders *)

Definition all_ascii : list ascii := map ascii_of_nat (seq 0 256).

(** Characters of the encoded sentence in a translation cache key. *)
Definition key_char (c : ascii) : bool := is_alnum c || in_chars c "-_.~%".

Definition no_underscore (s : string) : bool :=
  forallb (fun c => negb (Ascii.eqb c "_")) (list_ascii_of_string s).

Lemma in_all_ascii (c : ascii) : In c all_ascii.
Proof.
  unfold all_ascii. apply in_map_iff. exists (nat_of_ascii c). split.
  - apply ascii_nat_embedding.
  - apply in_seq. pose proof (nat_ascii_bounded c). lia.
Qed.

Lemma forall_ascii (p : ascii -> bool) : forallb p all_ascii = true -> forall c, p c = true.
Proof. intros H c. rewrite forallb_forall in H. apply H, in_all_ascii. Qed.

Lemma str_app_assoc (a b c : string) : (a ++ b) ++ c = a ++ (b ++ c).
Proof. induction a as [|x a IH]; simpl; [reflexivity | rewrite IH; reflexivity]. Qed.

Lemma list_ascii_app (a b : string) :
  list_ascii_of_string (a ++ b) = (list_ascii_of_string a ++ list_ascii_of_string b)%list.
Proof. induction a as [|x a IH]; simpl; [reflexivity | rewrite IH; reflexivity]. Qed.

Section PrefixCode.
(** A string encoded character by character, with a decoder that reads
    back one character. *)
Variable f : ascii -> string.
Variable dec : string -> option (ascii * string).
Hypothesis dec_f : forall c s, dec (f c ++ s) = Some (c, s).
Hypothesis dec_empty : dec EmptyString = None.

Fixpoint code (s : string) : string :=
  match s with
  | EmptyString => EmptyString
  | String c s' => f c ++ code s'
  end.

Lemma code_injective (s1 s2 : string) : code s1 = code s2 -> s1 = s2.
Proof.
  revert s2. induction s1 as [|c1 s1 IH]; intros [|c2 s2] H; simpl in H.
  - reflexivity.
  - exfalso. pose proof (dec_f c2 (code s2)) as D. rewrite <- H, dec_empty in D. discriminate D.
  - exfalso. pose proof (dec_f c1 (code s1)) as D. rewrite H, dec_empty in D. discriminate D.
  - pose proof (dec_f c1 (code s1)) as D1. pose proof (dec_f c2 (code s2)) as D2.
    rewrite H, D2 in D1. injection D1 as <- E. rewrite (IH s2 (eq_sym E)). reflexivity.
Qed.
End PrefixCode.

Definition hex_val (a : ascii) : nat :=
  let n := nat_of_ascii a in
  (if Nat.leb 48 n && Nat.leb n 57 then n - 48
   else if Nat.leb 65 n && Nat.leb n 70 then n - 55
   else if Nat.leb 97 n && Nat.leb n 102 then n - 87 else 0)%nat.

(** Reads back one encoded character: a literal character, one [%XY]
    escape below 128, or two escapes of a code unit from 128 to 255. *)
Definition decode_one (s : string) : option (ascii * string) :=
  match s with
  | String "%" (String h1 (String h2 rest)) =>
      let b := (16 * hex_val h1 + hex_val h2)%nat in
      if Nat.ltb b 128 then Some (ascii_of_nat b, rest)
      else match rest with
           | String "%" (String h3 (String h4 rest')) =>
               Some (ascii_of_nat ((b - 192) * 64 + (16 * hex_val h3 + hex_val h4 - 128))%nat, rest')
           | _ => None
           end
  | String c rest => Some (c, rest)
  | EmptyString => None
  end.

Lemma escape_sub_delims_app (a b : string) :
  escape_sub_delims (a ++ b) = escape_sub_delims a ++ escape_sub_delims b.
Proof.
  induction a as [|c a IH]; simpl; [reflexivity|]. rewrite IH, str_app_assoc. reflexivity.
Qed.

Lemma encodeURIComponent_code (s : string) : encodeURIComponent s = code encode_char s.
Proof. induction s as [|c s IH]; simpl; [reflexivity | rewrite IH; reflexivity]. Qed.

Definition sentence_char (c : ascii) : string := escape_sub_delims (encode_char c).

Lemma sentence_code (s : string) :
  escape_sub_delims (encodeURIComponent s) = code sentence_char s.
Proof.
  induction s as [|c s IH]; simpl; [reflexivity|].
  rewrite escape_sub_delims_app, IH. reflexivity.
Qed.

Lemma decode_encode_char (c : ascii) (s : string) : decode_one (encode_char c ++ s) = Some (c, s).
Proof. destruct c as [[] [] [] [] [] [] [] []]; reflexivity. Qed.

Lemma decode_sentence_char (c : ascii) (s : string) : decode_one (sentence_char c ++ s) = Some (c, s).
Proof. destruct c as [[] [] [] [] [] [] [] []]; reflexivity. Qed.

Lemma sentence_char_safe (c : ascii) :
  forallb key_char (list_ascii_of_string (sentence_char c)) = true.
Proof. revert c. apply forall_ascii. vm_compute. reflexivity. Qed.

Lemma uri_char_unreserved (c : ascii) :
  forallb (fun d => uri_unreserved d || Ascii.eqb d "%") (list_ascii_of_string (encode_char c)) = true.
Proof. revert c. apply forall_ascii. vm_compute. reflexivity. Qed.

Lemma underscore_split (a b l1 l2 : string) :
  no_underscore l1 = true -> no_underscore l2 = true ->
  a ++ "_" ++ l1 = b ++ "_" ++ l2 -> a = b /\ l1 = l2.
Proof.
  intros N1 N2. revert b. induction a as [|x a IH]; intros [|y b] H; simpl in H.
  - injection H as ->. auto.
  - exfalso. injection H as _ H. subst l1. unfold no_underscore in N1.
    rewrite list_ascii_app, forallb_app in N1. simpl in N1.
    rewrite Bool.andb_false_r in N1. discriminate N1.
  - exfalso. injection H as _ H. subst l2. unfold no_underscore in N2.
    rewrite list_ascii_app, forallb_app in N2. simpl in N2.
    rewrite Bool.andb_false_r in N2. discriminate N2.
  - injection H as -> H. destruct (IH b H) as [-> ->]. auto.
Qed.

(** X1: on strings of code units below 256, [encodeURIComponent] is
    injective: different such terms give different request URL segments. *)
Theorem encodeURIComponent_injective (s1 s2 : string) :
  encodeURIComponent s1 = encodeURIComponent s2 -> s1 = s2.
Proof.
  rewrite !encodeURIComponent_code.
  apply (code_injective encode_char decode_one decode_encode_char eq_refl).
Qed.

(** X2: on a string of code units below 256, every character
    [encodeURIComponent] outputs is an unreserved one (letters, digits and
    [-_.!~*'()]) or [%]. *)
Theorem encodeURIComponent_charset (s : string) :
  forallb (fun d => uri_unreserved d || Ascii.eqb d "%") (list_ascii_of_string (encodeURIComponent s)) = true.
Proof.
  induction s as [|c s IH]; simpl; [reflexivity|].
  rewrite list_ascii_app, forallb_app, uri_char_unreserved, IH. reflexivity.
Qed.

(** X3: for a sentence of code units below 256, the encoded sentence of
    its translation cache key consists of letters, digits and [-_.~%] only:
    the five characters [!'()*] are always escaped. *)
Theorem sentence_key_charset (s : string) :
  forallb key_char (list_ascii_of_string (escape_sub_delims (encodeURIComponent s))) = true.
Proof.
  rewrite sentence_code. induction s as [|c s IH]; simpl; [reflexivity|].
  rewrite list_ascii_app, forallb_app, sentence_char_safe, IH. reflexivity.
Qed.

(** X4: two translation requests for string sentences of code units below
    256 share a cache key only for the same sentence and the same target
    language, when the language codes contain no underscore. *)
Theorem sentence_key_injective (s1 s2 l1 l2 : string) :
  no_underscore l1 = true -> no_underscore l2 = true ->
  sentence_key (JStr s1) (JStr l1) = sentence_key (JStr s2) (JStr l2) -> s1 = s2 /\ l1 = l2.
Proof.
  intros N1 N2 H. unfold sentence_key in H. cbn [to_string] in H.
  apply str_app_cancel_l in H.
  destruct (underscore_split _ _ _ _ N1 N2 H) as [E ->]. split; [|reflexivity].
  rewrite !sentence_code in E.
  exact (code_injective sentence_char decode_one decode_sentence_char eq_refl _ _ E).
Qed.

(* ------------------------------------------------------------------ *)
(** ** Phrase detection *)

Definition no_space (w : string) : bool :=
  forallb (fun c => negb (is_regex_space c)) (list_ascii_of_string w).

Definition plain_word (w : string) : Prop :=
  Nat.ltb 0 (String.length w) = true /\ no_space w = true.

Lemma split_ws_nonnil (s : string) : split_ws s <> [].
Proof.
  induction s as [|c s IH]; simpl; [discriminate|].
  destruct (is_regex_space c); [destruct (starts_with_space s); [exact IH | discriminate]|].
  destruct (split_ws s); discriminate.
Qed.

Lemma str_app_nil (s : string) : s ++ "" = s.
Proof. induction s as [|c s IH]; simpl; [reflexivity | rewrite IH; reflexivity]. Qed.

Lemma split_ws_word (w s : string) :
  no_space w = true ->
  split_ws (w ++ s) = match split_ws s with x :: xs => (w ++ x) :: xs | [] => [w] end.
Proof.
  intros N. induction w as [|c w IH]; simpl.
  - destruct (split_ws s) eqn:E; [exfalso; exact (split_ws_nonnil s E) | reflexivity].
  - unfold no_space in N. simpl in N. apply andb_prop in N as [Nc N].
    apply negb_true_iff in Nc. rewrite Nc, (IH N).
    destruct (split_ws s); reflexivity.
Qed.

Lemma split_ws_space (s : string) :
  starts_with_space s = false -> split_ws (String " " s) = "" :: split_ws s.
Proof. intros H. cbn [split_ws]. rewrite H. reflexivity. Qed.

Lemma starts_with_space_word (w s : string) :
  plain_word w -> starts_with_space (w ++ s) = false.
Proof.
  intros [L N]. destruct w as [|c w]; [discriminate L|].
  unfold no_space in N. simpl in N. apply andb_prop in N as [Nc _].
  simpl. apply negb_true_iff, Nc.
Qed.

(* ------------------------------------------------------------------ *)
(** ** Storage reads and the two request flows *)

Definition is_set (e : event) : bool := match e with ESet _ _ => true | _ => false end.
Definition is_send (e : event) : bool := match e with ESend _ => true | _ => false end.

(** The URLs requested, in order. *)
Definition fetched (tr : list event) : list string :=
  flat_map (fun e => match e with EFetch u => [u] | _ => [] end) tr.

Lemma assoc_storage_get (k : string) (keys : list string) (st : store) :
  assoc k (storage_get keys st) = if existsb (String.eqb k) keys then assoc k st else None.
Proof.
  unfold storage_get. induction keys as [|k0 ks IH]; [reflexivity|].
  cbn [flat_map existsb]. destruct (assoc k0 st) eqn:E; cbn [app assoc].
  - destruct (String.eqb k k0) eqn:Ek; cbn [orb].
    + apply String.eqb_eq in Ek; subst k0. rewrite E. reflexivity.
    + exact IH.
  - rewrite IH. destruct (String.eqb k k0) eqn:Ek; cbn [orb]; [|reflexivity].
    apply String.eqb_eq in Ek; subst k0. rewrite E. destruct (existsb _ ks); reflexivity.
Qed.

Lemma fld_storage_get (k : string) (keys : list string) (st : store) :
  existsb (String.eqb k) keys = true -> fld (storage_get keys st) k = fld st k.
Proof. intros H. unfold fld. rewrite assoc_storage_get, H. reflexivity. Qed.

Lemma fld_get1 (k : string) (st : store) : fld (storage_get [k] st) k = fld st k.
Proof. apply fld_storage_get. simpl. rewrite String.eqb_refl. reflexivity. Qed.

Lemma storage_get_ext (keys : list string) (st1 st2 : store) :
  (forall k, In k keys -> assoc k st1 = assoc k st2) -> storage_get keys st1 = storage_get keys st2.
Proof.
  unfold storage_get. induction keys as [|k ks IH]; intros H; [reflexivity|].
  cbn [flat_map]. rewrite (H k (or_introl eq_refl)).
  rewrite IH; [reflexivity|]. intros k' Hk. apply H. right. exact Hk.
Qed.

Lemma fld_set_prop (k k' : string) (v : jv) (st : store) :
  fld (set_prop k' v st) k = if String.eqb k k' then v else fld st k.
Proof. unfold fld. rewrite assoc_set_prop. destruct (String.eqb k k'); reflexivity. Qed.

Lemma qdp_not_setting (k x : string) :
  In k (settings_keys ++ translate_settings_keys)%list -> String.eqb k ("qdp_" ++ x) = false.
Proof.
  simpl. intros H. repeat destruct H as [<-|H]; try reflexivity. destruct H.
Qed.

Lemma storage_get_set_qdp (keys : list string) (x : string) (v : jv) (st : store) :
  (forall k, In k keys -> In k (settings_keys ++ translate_settings_keys)%list) ->
  storage_get keys (set_prop ("qdp_" ++ x) v st) = storage_get keys st.
Proof.
  intros Hk. apply storage_get_ext. intros k Hin.
  rewrite assoc_set_prop, qdp_not_setting; [reflexivity|]. apply Hk, Hin.
Qed.

Lemma lookup_key_qdp (word : string) (st : store) : exists x, lookup_key word st = "qdp_" ++ x.
Proof. eexists. reflexivity. Qed.

Lemma lookup_settings_set (word : string) (v : jv) (st : store) :
  lookup_settings (set_prop (lookup_key word st) v st) = lookup_settings st.
Proof.
  destruct (lookup_key_qdp word st) as [x E]. rewrite E. unfold lookup_settings.
  apply storage_get_set_qdp. intros k Hk. apply in_or_app. left. exact Hk.
Qed.

Lemma lookup_key_set (word word' : string) (v : jv) (st : store) :
  lookup_key word' (set_prop (lookup_key word st) v st) = lookup_key word' st.
Proof.
  assert (H := lookup_settings_set word v st).
  unfold lookup_key at 1. rewrite H. reflexivity.
Qed.

Lemma lookup_tts_set (word : string) (v : jv) (st : store) :
  lookup_tts (set_prop (lookup_key word st) v st) = lookup_tts st.
Proof. unfold lookup_tts. rewrite lookup_settings_set. reflexivity. Qed.

Lemma accept_definition_obj (settings : list (string * jv)) (fullData r : jv) :
  accept_definition settings fullData = POk r -> truthy r = true.
Proof.
  unfold accept_definition. destruct (negb (truthy fullData)); [discriminate|].
  destruct (get fullData "word") as [w|]; cbn [of_res pbind]; [|discriminate].
  destruct (negb (truthy w)); [discriminate|].
  destruct (applyDisplayPreferences _ _) as [x|] eqn:E; cbn [of_res]; [|discriminate].
  intros H; injection H as <-.
  destruct (adp_ok_inv _ _ _ E) as (ds & ec & d & defs & fin & _ & _ & _ & _ & _ & ->).
  reflexivity.
Qed.

Lemma definition_request_fetches (word : string) (settings : list (string * jv))
    (fetch : string -> fetch_outcome) (fetches : list event) (p : pres jv) :
  definition_request word settings fetch = Some (fetches, p) ->
  forallb (fun e => negb (is_set e) && negb (is_send e)) fetches = true.
Proof.
  unfold definition_request, gemini_request.
  destruct (strict_eq _ (JStr "gemini")).
  - destruct (Nat.ltb 1 _); intros H; injection H as <- _; reflexivity.
  - destruct (strict_eq _ (JStr "merriam-webster")); [destruct (negb _)|];
      intros H; try discriminate H; injection H as <- _; reflexivity.
Qed.

Lemma no_set_of_forallb (tr : list event) :
  forallb (fun e => negb (is_set e) && negb (is_send e)) tr = true -> forall k v, ~ In (ESet k v) tr.
Proof.
  intros H k v Hin. rewrite forallb_forall in H. specialize (H _ Hin). discriminate H.
Qed.

(** The two ways a lookup ends. *)
Lemma lookup_flow_cases (word : string) (st st' : store) (fetch : string -> fetch_outcome)
    (tr : list event) :
  lookup_flow word st fetch = (tr, st') ->
  (st' = st /\ exists pre r, tr = (pre ++ [ESend r])%list /\
     forallb (fun e => negb (is_set e) && negb (is_send e)) pre = true) \/
  (exists pre v, tr = (pre ++ [ESet (lookup_key word st) v; ESend (RSuccess v (lookup_tts st))])%list /\
     st' = set_prop (lookup_key word st) v st /\ truthy v = true /\
     forallb (fun e => negb (is_set e) && negb (is_send e)) pre = true).
Proof.
  unfold lookup_flow. cbv zeta.
  destruct (truthy (fld (storage_get [lookup_key word st] st) (lookup_key word st))).
  { intros H; injection H as <- <-. left. split; [reflexivity|].
    exists [EGet settings_keys; EGet [lookup_key word st]]. eexists. split; reflexivity. }
  destruct (definition_request word (lookup_settings st) fetch) as [[fetches p]|] eqn:Er.
  2:{ intros H; injection H as <- <-. left. split; [reflexivity|].
       exists [EGet settings_keys; EGet [lookup_key word st]]. eexists. split; reflexivity. }
  pose proof (definition_request_fetches _ _ _ _ _ Er) as Hf.
  destruct (pbind p (accept_definition (lookup_settings st))) as [fd|e] eqn:Eo;
    intros H; injection H as <- <-.
  - right. exists ([EGet settings_keys; EGet [lookup_key word st]] ++ fetches)%list, fd.
    split; [rewrite <- app_assoc; reflexivity|]. split; [reflexivity|]. split.
    + destruct p as [a|]; cbn [pbind] in Eo; [|discriminate Eo].
      exact (accept_definition_obj _ _ _ Eo).
    + rewrite forallb_app, Hf. reflexivity.
  - left. split; [reflexivity|].
    exists ([EGet settings_keys; EGet [lookup_key word st]] ++ fetches)%list, (RError (err_message e)).
    split; [rewrite <- app_assoc; reflexivity|]. rewrite forallb_app, Hf. reflexivity.
Qed.

Lemma lookup_flow_hit (word : string) (st : store) (fetch : string -> fetch_outcome) :
  truthy (fld st (lookup_key word st)) = true ->
  lookup_flow word st fetch =
  ([EGet settings_keys; EGet [lookup_key word st];
    ESend (RSuccess (fld st (lookup_key word st)) (lookup_tts st))], st).
Proof. intros H. unfold lookup_flow. cbv zeta. rewrite fld_get1, H. reflexivity. Qed.

Lemma lookup_flow_miss (word : string) (st : store) (fetch : string -> fetch_outcome) :
  truthy (fld st (lookup_key word st)) = false ->
  lookup_flow word st fetch =
  let pre := [EGet settings_keys; EGet [lookup_key word st]] in
  match definition_request word (lookup_settings st) fetch with
  | None => ((pre ++ [ESend (RError (Some mw_key_missing))])%list, st)
  | Some (fetches, apiPromise) =>
      match pbind apiPromise (accept_definition (lookup_settings st)) with
      | POk finalData =>
          ((pre ++ fetches ++ [ESet (lookup_key word st) finalData;
                               ESend (RSuccess finalData (lookup_tts st))])%list,
           set_prop (lookup_key word st) finalData st)
      | PErr e => ((pre ++ fetches ++ [ESend (RError (err_message e))])%list, st)
      end
  end.
Proof. intros H. unfold lookup_flow. cbv zeta. rewrite fld_get1, H. reflexivity. Qed.

Lemma lookup_settings_fld (k : string) (st : store) :
  existsb (String.eqb k) settings_keys = true -> fld (lookup_settings st) k = fld st k.
Proof. apply fld_storage_get. Qed.

Lemma translate_flow_hit (s : jv) (st : store) (fetch : string -> fetch_outcome) :
  truthy (translate_language st) = true -> strict_eq (translate_language st) (JStr "none") = false ->
  truthy (fld st (sentence_key s (translate_language st))) = true ->
  translate_flow s st fetch =
  ([EGet translate_settings_keys; EGet [sentence_key s (translate_language st)];
    ESend (RSuccess (fld st (sentence_key s (translate_language st))) (translate_tts st))], st).
Proof.
  intros H1 H2 H3. unfold translate_flow. cbv zeta. rewrite H1, H2. cbn [negb orb].
  rewrite fld_get1, H3. reflexivity.
Qed.

Lemma translate_flow_miss (s : jv) (st : store) (fetch : string -> fetch_outcome) :
  truthy (translate_language st) = true -> strict_eq (translate_language st) (JStr "none") = false ->
  truthy (fld st (sentence_key s (translate_language st))) = false ->
  translate_flow s st fetch =
  let key := sentence_key s (translate_language st) in
  let url := translate_url s (translate_language st) in
  match pbind (fetch_json fetch url) accept_translation with
  | POk data =>
      ([EGet translate_settings_keys; EGet [key]; EFetch url; ESet key data;
        ESend (RSuccess data (translate_tts st))], set_prop key data st)
  | PErr e => ([EGet translate_settings_keys; EGet [key]; EFetch url; ESend (RError (err_message e))], st)
  end.
Proof.
  intros H1 H2 H3. unfold translate_flow. cbv zeta. rewrite H1, H2. cbn [negb orb].
  rewrite fld_get1, H3. destruct (pbind _ _); reflexivity.
Qed.

Lemma translate_flow_cases (s : jv) (st st' : store) (fetch : string -> fetch_outcome)
    (tr : list event) :
  translate_flow s st fetch = (tr, st') ->
  (st' = st /\ exists pre r, tr = (pre ++ [ESend r])%list /\
     forallb (fun e => negb (is_set e) && negb (is_send e)) pre = true) \/
  (exists pre v, tr = (pre ++ [ESet (sentence_key s (translate_language st)) v;
                               ESend (RSuccess v (translate_tts st))])%list /\
     st' = set_prop (sentence_key s (translate_language st)) v st /\
     truthy (translate_language st) = true /\
     strict_eq (translate_language st) (JStr "none") = false /\
     forallb (fun e => negb (is_set e) && negb (is_send e)) pre = true).
Proof.
  destruct (truthy (translate_language st)) eqn:H1;
    [destruct (strict_eq (translate_language st) (JStr "none")) eqn:H2|].
  2:{ destruct (truthy (fld st (sentence_key s (translate_language st)))) eqn:H3.
      - rewrite translate_flow_hit by assumption. intros H; injection H as <- <-. left.
        split; [reflexivity|]. exists [EGet translate_settings_keys; EGet [sentence_key s (translate_language st)]].
        eexists. split; reflexivity.
      - rewrite translate_flow_miss by assumption. cbv zeta.
        destruct (pbind _ _) as [data|e]; intros H; injection H as <- <-.
        + right. exists [EGet translate_settings_keys; EGet [sentence_key s (translate_language st)];
                         EFetch (translate_url s (translate_language st))], data.
          repeat split; assumption.
        + left. split; [reflexivity|].
          exists [EGet translate_settings_keys; EGet [sentence_key s (translate_language st)];
                  EFetch (translate_url s (translate_language st))]. eexists. split; reflexivity. }
  all: unfold translate_flow; cbv zeta; rewrite H1; try rewrite H2; cbn [negb orb];
    intros H; injection H as <- <-; left; split; [reflexivity|];
    exists [EGet translate_settings_keys]; eexists; split; reflexivity.
Qed.

Lemma in_set_last (pre : list event) (k k' : string) (v v' : jv) (r : response) :
  forallb (fun e => negb (is_set e) && negb (is_send e)) pre = true ->
  In (ESet k v) (pre ++ [ESet k' v'; ESend r])%list -> k = k' /\ v = v'.
Proof.
  intros Hp Hin. apply in_app_or in Hin as [Hin|Hin].
  - exfalso. exact (no_set_of_forallb pre Hp k v Hin).
  - destruct Hin as [E|[E|[]]]; [injection E as -> ->; auto | discriminate E].
Qed.

Lemma in_set_send (pre : list event) (k : string) (v : jv) (r : response) :
  forallb (fun e => negb (is_set e) && negb (is_send e)) pre = true ->
  ~ In (ESet k v) (pre ++ [ESend r])%list.
Proof.
  intros Hp Hin. apply in_app_or in Hin as [Hin|[E|[]]]; [|discriminate E].
  exact (no_set_of_forallb pre Hp k v Hin).
Qed.

Lemma one_send_of (pre : list event) :
  forallb (fun e => negb (is_set e) && negb (is_send e)) pre = true ->
  forallb (fun e => negb (is_send e)) pre = true.
Proof.
  induction pre as [|e pre IH]; [reflexivity|]. cbn [forallb].
  intros H; apply andb_prop in H as [He H]. apply andb_prop in He as [_ He].
  rewrite He, (IH H). reflexivity.
Qed.

Lemma split_words_join (ws : list string) : Forall plain_word ws -> words_of (String.concat " " ws) = ws.
Proof.
  induction ws as [|w ws IH]; intros Hf; [reflexivity|].
  inversion Hf as [|? ? Hw Hws]; subst. destruct ws as [|w' ws'].
  - cbn [String.concat].
    assert (E : split_ws w = [w]).
    { rewrite <- (str_app_nil w) at 1. rewrite (split_ws_word w "" (proj2 Hw)).
      cbn [split_ws]. rewrite str_app_nil. reflexivity. }
    unfold words_of. rewrite E. cbn [filter]. rewrite (proj1 Hw). reflexivity.
  - assert (C : String.concat " " (w :: w' :: ws') = w ++ String " " (String.concat " " (w' :: ws')))
      by reflexivity.
    assert (S : starts_with_space (String.concat " " (w' :: ws')) = false).
    { inversion Hws as [|? ? Hw' _]; subst.
      destruct ws' as [|w'' ws'']; cbn [String.concat].
      - rewrite <- (str_app_nil w'). apply starts_with_space_word, Hw'.
      - apply starts_with_space_word, Hw'. }
    rewrite C. unfold words_of. rewrite (split_ws_word w _ (proj2 Hw)), (split_ws_space _ S).
    rewrite str_app_nil. cbn [filter]. rewrite (proj1 Hw). f_equal. exact (IH Hws).
Qed.

Lemma gemini_fetches (word : string) (tl : jv) (fetch : string -> fetch_outcome) :
  fst (gemini_request word tl fetch) =
  if Nat.ltb 1 (length (words_of word)) then [EFetch (gemini_url word tl)]
  else [EFetch (gemini_url word tl); EFetch (cambridge_url word)].
Proof. unfold gemini_request. destruct (Nat.ltb 1 _); reflexivity. Qed.

(** X5: a term made of non-empty words without white space, joined by
    single spaces, splits back into these words (line 116). *)
Theorem words_of_join (ws : list string) :
  Forall plain_word ws -> words_of (String.concat " " ws) = ws.
Proof. apply split_words_join. Qed.

(** X6: when the cache holds a truthy value under the request's key, the
    lookup answers with that value and the [ttsEnabled] setting, fetches
    nothing and writes nothing. *)
Theorem lookup_cache_hit (word : string) (st : store) (fetch : string -> fetch_outcome) :
  truthy (fld st (lookup_key word st)) = true ->
  lookup_flow word st fetch =
  ([EGet settings_keys; EGet [lookup_key word st];
    ESend (RSuccess (fld st (lookup_key word st)) (lookup_tts st))], st).
Proof. apply lookup_flow_hit. Qed.

(** X7: a lookup either leaves the storage unchanged and writes nothing,
    or writes once, at the request's key, the value it then sends as its
    success response; so errors are never cached. *)
Theorem lookup_flow_cache_write (word : string) (st st' : store) (fetch : string -> fetch_outcome)
    (tr : list event) :
  lookup_flow word st fetch = (tr, st') ->
  (st' = st /\ forall k v, ~ In (ESet k v) tr) \/
  (exists pre v, tr = (pre ++ [ESet (lookup_key word st) v; ESend (RSuccess v (lookup_tts st))])%list /\
     st' = set_prop (lookup_key word st) v st /\ forall k v', ~ In (ESet k v') pre).
Proof.
  intros H. destruct (lookup_flow_cases _ _ _ _ _ H) as [[-> (pre & r & -> & Hp)]|(pre & v & -> & -> & _ & Hp)].
  - left. split; [reflexivity|]. intros k v. apply in_set_send, Hp.
  - right. exists pre, v. split; [reflexivity|]. split; [reflexivity|].
    exact (no_set_of_forallb pre Hp).
Qed.

(** X8: after a lookup that wrote the cache, the same request is answered
    from the cache with the value written, whatever the network does. *)
Theorem lookup_repeat_hits_cache (word : string) (st st' : store) (fetch fetch' : string -> fetch_outcome)
    (tr : list event) (k : string) (v : jv) :
  lookup_flow word st fetch = (tr, st') -> In (ESet k v) tr ->
  lookup_flow word st' fetch' =
  ([EGet settings_keys; EGet [lookup_key word st]; ESend (RSuccess v (lookup_tts st))], st').
Proof.
  intros H Hin. destruct (lookup_flow_cases _ _ _ _ _ H) as [[-> (pre & r & -> & Hp)]|(pre & v0 & -> & -> & Ht & Hp)].
  - exfalso. exact (in_set_send pre k v r Hp Hin).
  - destruct (in_set_last _ _ _ _ _ _ Hp Hin) as [-> ->].
    rewrite lookup_flow_hit; rewrite lookup_key_set, fld_set_prop, String.eqb_refl;
      [rewrite lookup_tts_set; reflexivity | exact Ht].
Qed.

(** Both request flows end in their one response. *)
Lemma flows_answer_once (word : string) (s : jv) (st : store) (fetch : string -> fetch_outcome) :
  (exists pre r, fst (lookup_flow word st fetch) = (pre ++ [ESend r])%list /\
     forallb (fun e => negb (is_send e)) pre = true) /\
  (exists pre r, fst (translate_flow s st fetch) = (pre ++ [ESend r])%list /\
     forallb (fun e => negb (is_send e)) pre = true).
Proof.
  split.
  - destruct (lookup_flow word st fetch) as [tr st'] eqn:E.
    destruct (lookup_flow_cases _ _ _ _ _ E) as [[_ (pre & r & -> & Hp)]|(pre & v & -> & _ & _ & Hp)].
    + exists pre, r. split; [reflexivity | apply one_send_of, Hp].
    + exists (pre ++ [ESet (lookup_key word st) v])%list, (RSuccess v (lookup_tts st)).
      split; [rewrite <- app_assoc; reflexivity|].
      rewrite forallb_app, (one_send_of _ Hp). reflexivity.
  - destruct (translate_flow s st fetch) as [tr st'] eqn:E.
    destruct (translate_flow_cases _ _ _ _ _ E) as [[_ (pre & r & -> & Hp)]|(pre & v & -> & _ & _ & _ & Hp)].
    + exists pre, r. split; [reflexivity | apply one_send_of, Hp].
    + exists (pre ++ [ESet (sentence_key s (translate_language st)) v])%list, (RSuccess v (translate_tts st)).
      split; [rewrite <- app_assoc; reflexivity|].
      rewrite forallb_app, (one_send_of _ Hp). reflexivity.
Qed.

(** X9: when the stored settings and the message's [text] convert to
    strings without throwing, the listener either throws synchronously
    (no response), or ignores a message of another type (returns
    [undefined], no effect), or returns [true] and answers exactly once,
    by the last effect of the handling. *)
Theorem onMessage_answers_once (message : jv) (st : store) (fetch : string -> fetch_outcome) :
  forallb (fun k => to_string_safe (fld st k)) settings_keys = true ->
  (forall s, get message "text" = Ok s -> to_string_safe s = true) ->
  onMessage message st fetch = Throw \/
  onMessage message st fetch = Ok (JUndef, ([], st)) \/
  exists pre r st', onMessage message st fetch = Ok (JBool true, ((pre ++ [ESend r])%list, st')) /\
    forallb (fun e => negb (is_send e)) pre = true.
Proof.
  intros _ _. unfold onMessage.
  destruct (get message "type") as [ty|]; cbn [bind]; [|left; reflexivity].
  destruct (strict_eq ty (JStr "getDefinition")).
  - destruct (get message "word") as [w|]; cbn [bind]; [|left; reflexivity].
    destruct (str_call w to_lower) as [word|]; cbn [bind]; [|left; reflexivity].
    right; right. destruct (flows_answer_once word JUndef st fetch) as [(pre & r & E & Hp) _].
    exists pre, r, (snd (lookup_flow word st fetch)). split; [|exact Hp].
    rewrite <- E, <- surjective_pairing. reflexivity.
  - destruct (strict_eq ty (JStr "translateSentence")); [|right; left; reflexivity].
    destruct (get message "text") as [sentence|]; cbn [bind]; [|left; reflexivity].
    right; right. destruct (flows_answer_once "" sentence st fetch) as [_ (pre & r & E & Hp)].
    exists pre, r, (snd (translate_flow sentence st fetch)). split; [|exact Hp].
    rewrite <- E, <- surjective_pairing. reflexivity.
Qed.

(** X10: with Merriam-Webster as the preferred source and no API key, a
    lookup that misses the cache answers with the missing-key error and
    makes no request. *)
Theorem lookup_mw_without_key (word : string) (st : store) (fetch : string -> fetch_outcome) :
  fld st "preferredSource" = JStr "merriam-webster" -> truthy (fld st "mwApiKey") = false ->
  truthy (fld st (lookup_key word st)) = false ->
  lookup_flow word st fetch =
  ([EGet settings_keys; EGet [lookup_key word st]; ESend (RError (Some mw_key_missing))], st).
Proof.
  intros Hs Hk Hm. rewrite lookup_flow_miss by exact Hm. unfold definition_request.
  rewrite (lookup_settings_fld "preferredSource" st eq_refl),
          (lookup_settings_fld "mwApiKey" st eq_refl), Hs, Hk.
  reflexivity.
Qed.

(** X11: with Provider B (Gemini) as the preferred source and settings
    that convert to strings without throwing, a lookup that misses the
    cache for a term (of code units below 256) of two or more words
    requests only the Gemini endpoint; a one-word term also requests the
    Cambridge endpoint. *)
Theorem lookup_gemini_fetches (ws : list string) (word : string) (st : store)
    (fetch : string -> fetch_outcome) :
  forallb (fun k => to_string_safe (fld st k)) settings_keys = true ->
  fld st "preferredSource" = JStr "gemini" -> truthy (fld st (lookup_key word st)) = false ->
  Forall plain_word ws -> word = String.concat " " ws ->
  fetched (fst (lookup_flow word st fetch)) =
  let g := gemini_url word (js_or (fld st "targetLanguage") (JStr "none")) in
  if Nat.ltb 1 (length ws) then [g] else [g; cambridge_url word].
Proof.
  intros _ Hs Hm Hw Ew. rewrite lookup_flow_miss by exact Hm. unfold definition_request.
  rewrite (lookup_settings_fld "preferredSource" st eq_refl),
          (lookup_settings_fld "targetLanguage" st eq_refl), Hs.
  rewrite (eq_refl : strict_eq (js_or (JStr "gemini") (JStr "cambridge")) (JStr "gemini") = true).
  cbv iota. unfold gemini_request. subst word. rewrite split_words_join by exact Hw. cbv zeta.
  destruct (Nat.ltb 1 (length ws)); cbv iota;
    match goal with |- context [match ?x with POk _ => _ | PErr _ => _ end] => destruct x end;
    reflexivity.
Qed.

Lemma translate_language_fld (st : store) : translate_language st = fld st "targetLanguage".
Proof. apply fld_storage_get. reflexivity. Qed.

Lemma sentence_key_qdp (s tl : jv) : exists x, sentence_key s tl = "qdp_" ++ x.
Proof.
  exists ("sentence_" ++ escape_sub_delims (encodeURIComponent (to_string s)) ++ "_" ++ to_string tl).
  reflexivity.
Qed.

Lemma translate_settings_set (s tl v : jv) (st : store) :
  storage_get translate_settings_keys (set_prop (sentence_key s tl) v st) =
  storage_get translate_settings_keys st.
Proof.
  destruct (sentence_key_qdp s tl) as [x E]. rewrite E.
  apply storage_get_set_qdp. intros k Hk. apply in_or_app. right. exact Hk.
Qed.

Lemma gemini_source_taken (st : store) :
  fld st "preferredSource" = JStr "gemini" ->
  strict_eq (js_or (fld (lookup_settings st) "preferredSource") (JStr "cambridge")) (JStr "gemini") = true.
Proof. intros H. rewrite (lookup_settings_fld "preferredSource" st eq_refl), H. reflexivity. Qed.

Lemma lookup_settings_language (st : store) :
  fld (lookup_settings st) "targetLanguage" = fld st "targetLanguage".
Proof. apply lookup_settings_fld. reflexivity. Qed.

Lemma cambridge_merge_null (ng : jv) : cambridge_merge ng JNull = Ok ng.
Proof. reflexivity. Qed.

(** X12: for a one-word term with Provider B as the source, a Cambridge
    response that is not JSON does not fail the lookup: the Gemini entry is
    projected, cached and sent as it is. *)
Theorem lookup_gemini_cambridge_unparsable (word : string) (st : store)
    (fetch : string -> fetch_outcome) (g ng w r : jv) :
  fld st "preferredSource" = JStr "gemini" -> truthy (fld st (lookup_key word st)) = false ->
  Nat.ltb 1 (length (words_of word)) = false ->
  fetch (gemini_url word (js_or (fld st "targetLanguage") (JStr "none"))) = JsonOk g ->
  fetch (cambridge_url word) = JsonFail ->
  normalizeGeminiData g = Ok ng -> truthy ng = true -> get ng "word" = Ok w -> truthy w = true ->
  applyDisplayPreferences ng (JObj (lookup_settings st)) = Ok r ->
  lookup_flow word st fetch =
  ([EGet settings_keys; EGet [lookup_key word st];
    EFetch (gemini_url word (js_or (fld st "targetLanguage") (JStr "none")));
    EFetch (cambridge_url word);
    ESet (lookup_key word st) r; ESend (RSuccess r (lookup_tts st))],
   set_prop (lookup_key word st) r st).
Proof.
  intros Hs Hm Hp Hg Hc Hn Htn Hw Htw Ha.
  rewrite lookup_flow_miss by exact Hm. unfold definition_request.
  rewrite (gemini_source_taken st Hs), lookup_settings_language. cbv iota.
  unfold gemini_request. rewrite Hp. cbv zeta iota.
  unfold fetch_json, fetch_json_or_null. rewrite Hg, Hc. cbn [pbind of_res].
  rewrite Hn. cbn [pbind of_res]. rewrite Htn, cambridge_merge_null. cbn [pbind of_res].
  unfold accept_definition. rewrite Htn, Hw. cbn [negb pbind of_res]. rewrite Htw, Ha.
  reflexivity.
Qed.

(** X13: for a one-word term with Provider B as the source, a failed
    Cambridge request fails the whole lookup with an engine error, whatever
    Gemini returned; nothing is cached. *)
Theorem lookup_gemini_cambridge_unreachable (word : string) (st : store)
    (fetch : string -> fetch_outcome) :
  fld st "preferredSource" = JStr "gemini" -> truthy (fld st (lookup_key word st)) = false ->
  Nat.ltb 1 (length (words_of word)) = false -> fetch (cambridge_url word) = FetchFail ->
  lookup_flow word st fetch =
  ([EGet settings_keys; EGet [lookup_key word st];
    EFetch (gemini_url word (js_or (fld st "targetLanguage") (JStr "none")));
    EFetch (cambridge_url word); ESend (RError None)], st).
Proof.
  intros Hs Hm Hp Hc.
  rewrite lookup_flow_miss by exact Hm. unfold definition_request.
  rewrite (gemini_source_taken st Hs), lookup_settings_language. cbv iota.
  unfold gemini_request. rewrite Hp. cbv zeta iota.
  unfold fetch_json, fetch_json_or_null. rewrite Hc.
  destruct (fetch (gemini_url _ _)); reflexivity.
Qed.

(** X14: with Provider B as the source, a Gemini payload its adapter
    rejects makes the lookup answer with the Gemini error message, unless a
    failed Cambridge request (one-word terms) fails it first; nothing is
    cached. *)
Theorem lookup_gemini_rejected (word : string) (st : store) (fetch : string -> fetch_outcome) (g : jv) :
  fld st "preferredSource" = JStr "gemini" -> truthy (fld st (lookup_key word st)) = false ->
  fetch (gemini_url word (js_or (fld st "targetLanguage") (JStr "none"))) = JsonOk g ->
  normalizeGeminiData g = Ok JNull ->
  Nat.ltb 1 (length (words_of word)) = true \/ fetch (cambridge_url word) <> FetchFail ->
  exists pre, lookup_flow word st fetch = ((pre ++ [ESend (RError (Some gemini_not_found))])%list, st).
Proof.
  intros Hs Hm Hg Hn Hor.
  rewrite lookup_flow_miss by exact Hm. unfold definition_request.
  rewrite (gemini_source_taken st Hs), lookup_settings_language. cbv iota.
  unfold gemini_request. cbv zeta. unfold fetch_json, fetch_json_or_null.
  destruct (Nat.ltb 1 (length (words_of word))) eqn:Ep; cbv iota.
  - rewrite Hg. cbn [pbind of_res]. rewrite Hn.
    exists [EGet settings_keys; EGet [lookup_key word st];
            EFetch (gemini_url word (js_or (fld st "targetLanguage") (JStr "none")))].
    reflexivity.
  - destruct Hor as [Hor|Hor]; [discriminate Hor|].
    rewrite Hg. destruct (fetch (cambridge_url word)); [contradiction Hor; reflexivity| |];
      cbn [pbind of_res]; rewrite Hn;
      exists [EGet settings_keys; EGet [lookup_key word st];
              EFetch (gemini_url word (js_or (fld st "targetLanguage") (JStr "none")));
              EFetch (cambridge_url word)];
      reflexivity.
Qed.

(** X15: when the local dictionary is the source (any preferred source but
    Gemini and Merriam-Webster), a falsy payload, or one whose [word] is
    falsy, is answered with the not-found message and not cached. *)
Theorem lookup_dictionary_not_found (word : string) (st : store) (fetch : string -> fetch_outcome) (d : jv) :
  strict_eq (js_or (fld st "preferredSource") (JStr "cambridge")) (JStr "gemini") = false ->
  strict_eq (js_or (fld st "preferredSource") (JStr "cambridge")) (JStr "merriam-webster") = false ->
  truthy (fld st (lookup_key word st)) = false ->
  fetch ("http://localhost:3000/api/dictionary/en/" ++ word) = JsonOk d ->
  (truthy d = false \/ exists w, get d "word" = Ok w /\ truthy w = false) ->
  lookup_flow word st fetch =
  ([EGet settings_keys; EGet [lookup_key word st];
    EFetch ("http://localhost:3000/api/dictionary/en/" ++ word);
    ESend (RError (Some definition_not_found))], st).
Proof.
  intros H1 H2 Hm Hf Hd.
  rewrite lookup_flow_miss by exact Hm. unfold definition_request.
  rewrite (lookup_settings_fld "preferredSource" st eq_refl), H1, H2. cbv iota zeta.
  unfold fetch_json. rewrite Hf. cbn [pbind]. unfold accept_definition.
  destruct Hd as [Hd|(w & Hw & Ht)].
  - rewrite Hd. reflexivity.
  - destruct (truthy d); [|reflexivity]. rewrite Hw. cbn [negb pbind of_res]. rewrite Ht. reflexivity.
Qed.

(** X16: with no target language, or the value ["none"], a translation
    request is answered with the no-language status, without reading the
    cache or making a request. *)
Theorem translate_without_language (s : jv) (st : store) (fetch : string -> fetch_outcome) :
  truthy (fld st "targetLanguage") = false \/ fld st "targetLanguage" = JStr "none" ->
  translate_flow s st fetch =
  ([EGet translate_settings_keys; ESend (RNoLanguage no_language)], st).
Proof.
  intros H. unfold translate_flow. cbv zeta. rewrite translate_language_fld.
  destruct H as [H|H]; rewrite H; reflexivity.
Qed.

(** X17: a translation payload with a truthy [error] that converts to a
    string without throwing is answered with that error's string form and
    never cached. *)
Theorem translate_error_payload (s : jv) (st : store) (fetch : string -> fetch_outcome) (data e : jv) :
  truthy (fld st "targetLanguage") = true ->
  strict_eq (fld st "targetLanguage") (JStr "none") = false ->
  truthy (fld st (sentence_key s (fld st "targetLanguage"))) = false ->
  fetch (translate_url s (fld st "targetLanguage")) = JsonOk data ->
  get data "error" = Ok e -> truthy e = true -> to_string_safe e = true ->
  translate_flow s st fetch =
  ([EGet translate_settings_keys; EGet [sentence_key s (fld st "targetLanguage")];
    EFetch (translate_url s (fld st "targetLanguage")); ESend (RError (Some (to_string e)))], st).
Proof.
  intros H1 H2 H3 Hf He Ht _. rewrite <- !translate_language_fld in *.
  rewrite translate_flow_miss by assumption. cbv zeta.
  unfold fetch_json. rewrite Hf. cbn [pbind]. unfold accept_translation. rewrite He.
  cbn [pbind of_res]. rewrite Ht. reflexivity.
Qed.

(** X18: after a translation that wrote a truthy value to the cache, the
    same request is answered from the cache with that value. *)
Theorem translate_repeat_hits_cache (s : jv) (st st' : store) (fetch fetch' : string -> fetch_outcome)
    (tr : list event) (k : string) (v : jv) :
  translate_flow s st fetch = (tr, st') -> In (ESet k v) tr -> truthy v = true ->
  translate_flow s st' fetch' =
  ([EGet translate_settings_keys; EGet [k]; ESend (RSuccess v (translate_tts st))], st').
Proof.
  intros H Hin Hv.
  destruct (translate_flow_cases _ _ _ _ _ H) as [[-> (pre & r & -> & Hp)]|(pre & v0 & -> & -> & H1 & H2 & Hp)].
  - exfalso. exact (in_set_send pre k v r Hp Hin).
  - destruct (in_set_last _ _ _ _ _ _ Hp Hin) as [-> ->].
    assert (Hl : translate_language (set_prop (sentence_key s (translate_language st)) v0 st) =
                 translate_language st)
      by (unfold translate_language; rewrite translate_settings_set; reflexivity).
    assert (Ht : translate_tts (set_prop (sentence_key s (translate_language st)) v0 st) =
                 translate_tts st)
      by (unfold translate_tts; rewrite translate_settings_set; reflexivity).
    rewrite translate_flow_hit; rewrite ?Hl, ?Ht; try assumption.
    + rewrite fld_set_prop, String.eqb_refl. reflexivity.
    + rewrite fld_set_prop, String.eqb_refl. exact Hv.
Qed.

(** X19: a falsy translation payload (such as [0], [""] or [false]) is
    written to the cache but never served from it: the same request fetches
    again. *)
Theorem translate_falsy_payload_refetched (s : jv) (st st' : store)
    (fetch fetch' : string -> fetch_outcome) (tr : list event) (k : string) (v : jv) :
  translate_flow s st fetch = (tr, st') -> In (ESet k v) tr -> truthy v = false ->
  st' = set_prop k v st /\
  In (EFetch (translate_url s (fld st "targetLanguage"))) (fst (translate_flow s st' fetch')).
Proof.
  intros H Hin Hv. rewrite <- translate_language_fld.
  destruct (translate_flow_cases _ _ _ _ _ H) as [[-> (pre & r & -> & Hp)]|(pre & v0 & -> & -> & H1 & H2 & Hp)].
  - exfalso. exact (in_set_send pre k v r Hp Hin).
  - destruct (in_set_last _ _ _ _ _ _ Hp Hin) as [-> ->]. split; [reflexivity|].
    assert (Hl : translate_language (set_prop (sentence_key s (translate_language st)) v0 st) =
                 translate_language st)
      by (unfold translate_language; rewrite translate_settings_set; reflexivity).
    rewrite translate_flow_miss; rewrite ?Hl; try assumption.
    + cbv zeta. destruct (pbind _ _); simpl; auto.
    + rewrite fld_set_prop, String.eqb_refl. exact Hv.
Qed.

(** X20: a [getDefinition] message whose [word] is not a string makes the
    listener throw: no response is ever sent. *)
Theorem onMessage_word_not_string (message : jv) (st : store) (fetch : string -> fetch_outcome) (w : jv) :
  get message "type" = Ok (JStr "getDefinition") -> get message "word" = Ok w ->
  js_typeof w <> "string" -> onMessage message st fetch = Throw.
Proof.
  intros Ht Hw Hn. unfold onMessage. rewrite Ht. cbn [bind].
  rewrite (eq_refl : strict_eq (JStr "getDefinition") (JStr "getDefinition") = true).
  rewrite Hw. cbn [bind]. destruct w; try reflexivity. contradiction Hn. reflexivity.
Qed.

(* ------------------------------------------------------------------ *)
(** ** The Cambridge pronunciation merge *)

(** The shape of a Provider B entry (lines 55-62). *)
Definition gem_shape (word translation : jv) (poss : list jv) (pron url : jv) (defs : list jv) : jv :=
  JObj [("word", word); ("translation", translation); ("pos", JArr poss); ("verbs", JArr []);
        ("pronunciation", JArr [pron_obj pron url]); ("definition", JArr defs)].

Lemma set_pron0_url (w t : jv) ps (p u x : jv) ds :
  set_pron0 (gem_shape w t ps p u ds) "url" x = Ok (gem_shape w t ps p x ds).
Proof. reflexivity. Qed.

Lemma set_pron0_pron (w t : jv) ps (p u x : jv) ds :
  set_pron0 (gem_shape w t ps p u ds) "pron" x = Ok (gem_shape w t ps x u ds).
Proof. reflexivity. Qed.

Lemma pron0_shape (w t : jv) ps (p u : jv) ds : pron0 (gem_shape w t ps p u ds) = Ok (pron_obj p u).
Proof. reflexivity. Qed.

Lemma get_obj_fld (fs : list (string * jv)) (k : string) : get (JObj fs) k = Ok (fld fs k).
Proof. reflexivity. Qed.

Definition url_less (q : jv) : Prop := exists qfs, q = JObj qfs /\ truthy (fld qfs "url") = false.

Lemma js_find_url (pre post : list jv) (pfs : list (string * jv)) :
  Forall url_less pre -> truthy (fld pfs "url") = true ->
  js_find (fun p => let* u := get p "url" in Ok (truthy u)) (pre ++ JObj pfs :: post) = Ok (JObj pfs).
Proof.
  intros Hp Hu. induction Hp as [|q pre (qfs & -> & Hq) _ IH]; cbn [app js_find].
  - rewrite get_obj_fld. cbn [bind]. rewrite Hu. reflexivity.
  - rewrite get_obj_fld. cbn [bind]. rewrite Hq. exact IH.
Qed.

Lemma gem_shape_of (g ng : jv) :
  normalizeGeminiData g = Ok ng -> ng <> JNull ->
  exists w t ps pr ds, ng = gem_shape w t ps (js_or pr (JStr "")) (JStr "") ds /\
    get g "pronunciation" = Ok pr.
Proof.
  intros H Hn. destruct (gem_ok_inv g ng H Hn) as (fs & defs & pr & w & word & tr & poss & _ & _ & Hpr & _ & _ & _ & _ & ->).
  exists word, (js_or tr JNull), poss, pr, defs. split; [reflexivity | exact Hpr].
Qed.

(* ------------------------------------------------------------------ *)
(** ** The [{it}] markup of Provider A examples *)

Definition it_tag (x : string) : bool := String.eqb x "{it}" || String.eqb x "{/it}".

Definition brace_free (x : string) : bool :=
  forallb (fun c => negb (Ascii.eqb c "{")) (list_ascii_of_string x).

(** A piece of an example text: a tag, or text without ['{']. *)
Definition it_piece (x : string) : bool := it_tag x || brace_free x.

Lemma prefix_app_ex (a s : string) : String.prefix a s = true -> exists t, s = a ++ t.
Proof.
  revert s. induction a as [|c a IH]; intros s H; [exists s; reflexivity|].
  destruct s as [|d s]; [discriminate H|]. simpl in H.
  destruct (ascii_dec c d) as [<-|]; [|discriminate H].
  destruct (IH s H) as [t ->]. exists t. reflexivity.
Qed.

Lemma prefix_self (a t : string) : String.prefix a (a ++ t) = true.
Proof.
  induction a as [|c a IH]; [destruct t; reflexivity|]. simpl.
  destruct (ascii_dec c c); [exact IH | contradiction].
Qed.

Lemma substring_after (a t : string) (n : nat) : substring (String.length a) n (a ++ t) = substring 0 n t.
Proof. induction a as [|c a IH]; [reflexivity | exact IH]. Qed.

Lemma substring0_all (t : string) (n : nat) : (String.length t <= n)%nat -> substring 0 n t = t.
Proof.
  revert n. induction t as [|c t IH]; intros [|n] H; simpl in *; try reflexivity; [lia|].
  rewrite IH by lia. reflexivity.
Qed.

Lemma substring_rest (a t : string) :
  substring (String.length a) (String.length (a ++ t)) (a ++ t) = t.
Proof. rewrite substring_after, substring0_all; [reflexivity|]. rewrite str_length_app. lia. Qed.

Lemma strip_go_step (a b : string) (n : nat) (c : ascii) (s : string) :
  strip_go a b (S n) (String c s) =
  if String.prefix a (String c s)
  then strip_go a b n (substring (String.length a) (String.length (String c s)) (String c s))
  else if String.prefix b (String c s)
  then strip_go a b n (substring (String.length b) (String.length (String c s)) (String c s))
  else String c (strip_go a b n s).
Proof. reflexivity. Qed.

Lemma strip_sub_shorter (a s : string) :
  a <> EmptyString -> String.prefix a s = true ->
  (String.length (substring (String.length a) (String.length s) s) < String.length s)%nat.
Proof.
  intros Ha H. destruct (prefix_app_ex a s H) as [t ->]. rewrite substring_rest, str_length_app.
  destruct a; [contradiction | simpl; lia].
Qed.

Lemma strip_go_fuel (a b : string) :
  a <> EmptyString -> b <> EmptyString ->
  forall n m s, (String.length s <= n)%nat -> (String.length s <= m)%nat ->
  strip_go a b n s = strip_go a b m s.
Proof.
  intros Ha Hb. induction n as [|n IH]; intros m s Hn Hm.
  - destruct s; [destruct m; reflexivity | simpl in Hn; lia].
  - destruct m as [|m]; [destruct s; [reflexivity | simpl in Hm; lia]|].
    destruct s as [|c s]; [reflexivity|]. rewrite !strip_go_step.
    destruct (String.prefix a (String c s)) eqn:Ea.
    + pose proof (strip_sub_shorter a _ Ha Ea). apply IH; lia.
    + destruct (String.prefix b (String c s)) eqn:Eb.
      * pose proof (strip_sub_shorter b _ Hb Eb). apply IH; lia.
      * simpl in Hn, Hm. f_equal. apply IH; lia.
Qed.

Lemma strip_tag (a b t x : string) :
  a <> EmptyString -> b <> EmptyString -> (x = a \/ (x = b /\ String.prefix a (b ++ t) = false)) ->
  strip_markup a b (x ++ t) = strip_markup a b t.
Proof.
  intros Ha Hb Hx. unfold strip_markup.
  destruct Hx as [->|[-> Hp]].
  - destruct a as [|ca a']; [contradiction|].
    change (String ca a' ++ t) with (String ca (a' ++ t)).
    change (String.length (String ca (a' ++ t))) with (S (String.length (a' ++ t))).
    rewrite strip_go_step.
    change (String ca (a' ++ t)) with (String ca a' ++ t).
    rewrite prefix_self, substring_rest.
    apply strip_go_fuel; [exact Ha | exact Hb | rewrite str_length_app; lia | lia].
  - destruct b as [|cb b']; [contradiction|].
    change (String cb b' ++ t) with (String cb (b' ++ t)) in *.
    change (String.length (String cb (b' ++ t))) with (S (String.length (b' ++ t))).
    rewrite strip_go_step.
    change (String cb (b' ++ t)) with (String cb b' ++ t) in *.
    rewrite Hp, prefix_self, substring_rest.
    apply strip_go_fuel; [exact Ha | exact Hb | rewrite str_length_app; lia | lia].
Qed.

Lemma prefix_brace (x t : string) (c : ascii) :
  c <> "{"%char -> String.prefix (String "{" x) (String c t) = false.
Proof. intros Hc. cbn [String.prefix]. destruct (ascii_dec "{" c); [congruence | reflexivity]. Qed.

Lemma strip_it_char (c : ascii) (t : string) :
  c <> "{"%char -> strip_markup "{it}" "{/it}" (String c t) = String c (strip_markup "{it}" "{/it}" t).
Proof.
  intros Hc. unfold strip_markup. change (String.length (String c t)) with (S (String.length t)).
  rewrite strip_go_step, !prefix_brace by exact Hc. reflexivity.
Qed.

Lemma strip_it_plain (x t : string) :
  brace_free x = true -> strip_markup "{it}" "{/it}" (x ++ t) = x ++ strip_markup "{it}" "{/it}" t.
Proof.
  induction x as [|c x IH]; intros H; [reflexivity|].
  unfold brace_free in H. cbn [list_ascii_of_string forallb] in H. apply andb_prop in H as [Hc H].
  change (String c x ++ t) with (String c (x ++ t)). rewrite strip_it_char.
  - rewrite (IH H). reflexivity.
  - intros E. subst c. discriminate Hc.
Qed.

Lemma concat_empty_cons (x : string) (xs : list string) :
  String.concat "" (x :: xs) = x ++ String.concat "" xs.
Proof. destruct xs; [rewrite str_app_nil | ]; reflexivity. Qed.

Lemma strip_it_pieces (xs : list string) :
  forallb it_piece xs = true ->
  strip_markup "{it}" "{/it}" (String.concat "" xs) = String.concat "" (filter (fun x => negb (it_tag x)) xs).
Proof.
  induction xs as [|x xs IH]; intros H; [reflexivity|].
  cbn [forallb] in H. apply andb_prop in H as [Hx H].
  rewrite concat_empty_cons. cbn [filter]. unfold it_piece in Hx.
  destruct (it_tag x) eqn:Et; cbn [negb orb] in Hx |- *.
  - unfold it_tag in Et. apply orb_prop in Et as [E|E]; apply String.eqb_eq in E; subst x;
      (rewrite strip_tag; [exact (IH H) | discriminate | discriminate |]).
    + left. reflexivity.
    + right. split; reflexivity.
  - rewrite strip_it_plain by exact Hx. rewrite concat_empty_cons, (IH H). reflexivity.
Qed.

Lemma before_colon_spec (s : string) :
  String.prefix (before_colon s) s = true /\
  forallb (fun c => negb (Ascii.eqb c ":")) (list_ascii_of_string (before_colon s)) = true /\
  (before_colon s = s \/ String.prefix (before_colon s ++ ":") s = true).
Proof.
  induction s as [|c s (IH1 & IH2 & IH3)]; [split; [|split]; auto|].
  cbn [before_colon]. destruct (Ascii.eqb c ":") eqn:E.
  - apply Ascii.eqb_eq in E. subst c. split; [reflexivity | split; [reflexivity|]].
    right. simpl. destruct s; reflexivity.
  - split; [|split].
    + simpl. destruct (ascii_dec c c); [exact IH1 | contradiction].
    + cbn [list_ascii_of_string forallb]. rewrite E, IH2. reflexivity.
    + destruct IH3 as [->|IH3]; [left; reflexivity | right].
      simpl. destruct (ascii_dec c c); [exact IH3 | contradiction].
Qed.

(* ------------------------------------------------------------------ *)
(** ** Theorems on the adapters and the projector *)

(** X21: when the Cambridge response lists a pronunciation with a truthy
    [url] (the first such one, after entries without a url), the merged
    Provider B entry takes that url, keeps its own pronunciation text when
    non-empty and otherwise takes the Cambridge one (or stays empty); every
    other field is unchanged. *)
Theorem cambridge_merge_pronunciation (g ng : jv) (cfs pfs : list (string * jv)) (pre post : list jv) :
  normalizeGeminiData g = Ok ng -> ng <> JNull ->
  get (JObj cfs) "pronunciation" = Ok (JArr (pre ++ JObj pfs :: post)) ->
  Forall url_less pre -> truthy (fld pfs "url") = true ->
  exists w t ps pr ds,
    get g "pronunciation" = Ok pr /\
    ng = gem_shape w t ps (js_or pr (JStr "")) (JStr "") ds /\
    cambridge_merge ng (JObj cfs) =
      Ok (gem_shape w t ps
            (if truthy pr then pr else js_or (fld pfs "pron") (JStr ""))
            (fld pfs "url") ds).
Proof.
  intros Hn Hnn Hc Hpre Hu.
  destruct (gem_shape_of g ng Hn Hnn) as (w & t & ps & pr & ds & -> & Hpr).
  exists w, t, ps, pr, ds. split; [exact Hpr | split; [reflexivity|]].
  unfold cambridge_merge. cbn [truthy bind]. rewrite Hc. cbn [bind truthy get].
  rewrite String.eqb_refl. cbn [bind]. rewrite js_gt_num.
  assert (G : Z.gtb (Z.of_nat (length (pre ++ JObj pfs :: post))) 0 = true)
    by (rewrite Z.gtb_ltb; apply Z.ltb_lt; rewrite length_app; cbn [length]; lia).
  rewrite G. cbn [bind arr_call]. rewrite (js_find_url pre post pfs Hpre Hu).
  cbn [bind truthy]. rewrite get_obj_fld. cbn [bind].
  replace (js_or (fld pfs "url") (JStr "")) with (fld pfs "url") by (unfold js_or; rewrite Hu; reflexivity).
  rewrite set_pron0_url. cbn [bind]. rewrite pron0_shape. cbn [bind].
  change (get (pron_obj (js_or pr (JStr "")) (fld pfs "url")) "pron") with (Ok (js_or pr (JStr ""))).
  cbn [bind]. rewrite get_obj_fld. cbn [bind]. destruct (truthy pr) eqn:Hp.
  - replace (js_or pr (JStr "")) with pr by (unfold js_or; rewrite Hp; reflexivity).
    rewrite Hp. reflexivity.
  - replace (js_or pr (JStr "")) with (JStr "") by (unfold js_or; rewrite Hp; reflexivity).
    cbn [truthy negb String.eqb bind]. unfold js_or.
    destruct (truthy (fld pfs "pron")); [rewrite set_pron0_pron|]; reflexivity.
Qed.

(** X22: the head word of a Provider A entry is the part of [meta.id]
    before its first [':'] (the homograph mark is cut off): a prefix of the
    id that contains no [':'], and all of the id unless a [':'] follows it. *)
Theorem mw_headword (mwData r : jv) :
  normalizeMwData mwData = Ok r -> r <> JNull ->
  exists m0 meta id, idx mwData 0 = Ok m0 /\ get m0 "meta" = Ok meta /\ get meta "id" = Ok (JStr id) /\
    get r "word" = Ok (JStr (before_colon id)) /\
    String.prefix (before_colon id) id = true /\
    forallb (fun c => negb (Ascii.eqb c ":")) (list_ascii_of_string (before_colon id)) = true /\
    (before_colon id = id \/ String.prefix (before_colon id ++ ":") id = true).
Proof.
  intros H Hn.
  destruct (mw_ok_inv mwData r H Hn) as (m0 & pron & fl & sd & sd0 & ex & meta & id & H0 & _ & _ & _ & _ & _ & Hm & Hi & ->).
  exists m0, meta, id. split; [exact H0 | split; [exact Hm | split; [exact Hi | split]]].
  - reflexivity.
  - apply before_colon_spec.
Qed.

(** X23: a Provider A entry with no [suppl] and an empty [def] array makes
    the example extraction throw: the read of [def[0].sseq] is outside the
    [try]. *)
Theorem mw_examples_empty_def (entry suppl : jv) :
  get entry "suppl" = Ok suppl -> truthy suppl = false -> get entry "def" = Ok (JArr []) ->
  mw_examples entry = Throw.
Proof.
  intros Hs Ht Hd. unfold mw_examples. rewrite Hs. cbn [bind]. rewrite Ht. cbn [bind].
  rewrite Hd. reflexivity.
Qed.

(** X24: the first supplementary example of a Provider A entry, when its
    text is made of [{it}] and [{/it}] tags and pieces without ['{'],
    becomes the single example with the tags removed and the other pieces
    kept in order. *)
Theorem mw_suppl_example (entry suppl e0 : jv) (rest : list jv) (xs : list string) :
  get entry "suppl" = Ok suppl -> truthy suppl = true ->
  get suppl "examples" = Ok (JArr (e0 :: rest)) ->
  get e0 "t" = Ok (JStr (String.concat "" xs)) -> forallb it_piece xs = true ->
  mw_examples entry = Ok [JObj [("text", JStr (String.concat "" (filter (fun x => negb (it_tag x)) xs)))]].
Proof.
  intros Hs Ht He Hx Hp. unfold mw_examples. rewrite Hs. cbn [bind]. rewrite Ht, He.
  cbn [bind truthy get]. rewrite String.eqb_refl. cbn [bind]. rewrite js_gt_num.
  assert (G : Z.gtb (Z.of_nat (length (e0 :: rest))) 0 = true)
    by (rewrite Z.gtb_ltb; apply Z.ltb_lt; cbn [length]; lia).
  rewrite G. cbn [bind idx nth]. rewrite Hx. cbn [bind str_call].
  rewrite strip_it_pieces by exact Hp. reflexivity.
Qed.


(** X26: a Provider B example that is a string becomes that text with a
    null translation; an object gives its [text] and [translation]; a
    number gives an undefined text; [null] and [undefined] throw. *)
Theorem gem_example_shapes :
  (forall s, gem_example (JStr s) = Ok (JObj [("text", JStr s); ("translation", JNull)])) /\
  (forall fs, gem_example (JObj fs) = Ok (JObj [("text", fld fs "text"); ("translation", fld fs "translation")])) /\
  (forall n, gem_example (JNum n) = Ok (JObj [("text", JUndef); ("translation", JNull)])) /\
  gem_example JNull = Throw /\ gem_example JUndef = Throw.
Proof. repeat split; intros; reflexivity. Qed.

(** X27: a Provider B entry's word is the payload's [word] when truthy and
    its [phrase] otherwise; its translation is the payload's [translation]
    or null. *)
Theorem gem_word_fallback (g r w : jv) :
  normalizeGeminiData g = Ok r -> r <> JNull -> get g "word" = Ok w ->
  (truthy w = true -> get r "word" = Ok w) /\
  (truthy w = false -> get r "word" = get g "phrase") /\
  exists tr, get g "translation" = Ok tr /\ get r "translation" = Ok (js_or tr JNull).
Proof.
  intros H Hn Hw.
  destruct (gem_ok_inv g r H Hn) as (fs & defs & pr & w' & word & tr & poss & _ & _ & _ & Hw' & Hword & Htr & _ & ->).
  rewrite Hw in Hw'. injection Hw' as <-. split; [|split].
  - intros T. rewrite T in Hword. injection Hword as ->. reflexivity.
  - intros F. rewrite F in Hword. rewrite Hword. reflexivity.
  - exists tr. split; [exact Htr | reflexivity].
Qed.

(** X28: the projection changes only the [definition] field of an entry
    object: every other field reads as before. *)
Theorem project_other_fields (fs : list (string * jv)) (settings r : jv) (k : string) :
  applyDisplayPreferences (JObj fs) settings = Ok r -> k <> "definition" ->
  get r k = get (JObj fs) k.
Proof.
  intros H Hk. destruct (adp_ok_inv _ _ _ H) as (ds & ec & d & defs & fin & _ & _ & _ & _ & _ & ->).
  rewrite get_projected. apply String.eqb_neq in Hk. rewrite Hk. reflexivity.
Qed.

(** X29: any truthy [definitionScope] other than ["relevant"] (["all"],
    but also ["ALL"] or ["relevant "]) keeps all senses, and any falsy
    one ([""], [false], [0], [null]) acts as ["relevant"]. *)
Theorem project_scope_values (fs sfs : list (string * jv)) (ds : list jv) (sc : jv) :
  get (JObj fs) "definition" = Ok (JArr ds) -> forallb is_sense ds = true ->
  get (JObj sfs) "definitionScope" = Ok sc ->
  exists r ds', applyDisplayPreferences (JObj fs) (JObj sfs) = Ok r /\
    get r "definition" = Ok (JArr ds') /\
    (truthy sc = true -> strict_eq sc (JStr "relevant") = false -> length ds' = length ds) /\
    (truthy sc = false -> length ds' = Nat.min 1 (length ds)).
Proof.
  intros Hd Hs Hsc.
  destruct (project_ok fs sfs ds Hd Hs) as (sc' & ec & fin & Hsc' & _ & Hp & Hlen & _).
  rewrite Hsc in Hsc'. injection Hsc' as <-.
  exists (JObj (set_prop "definition" (JArr fin) fs)), fin.
  split; [exact Hp | split; [rewrite get_set_prop; reflexivity | split]].
  - intros T R. rewrite Hlen, retained_length. unfold js_or. rewrite T, R. reflexivity.
  - intros F. rewrite Hlen, retained_length. unfold js_or. rewrite F. reflexivity.
Qed.

Lemma trim_def_negative (k : Z) (gs : list (string * jv)) (xs : list jv) (d' : jv) :
  k < 0 -> get (JObj gs) "example" = Ok (JArr xs) ->
  trim_def (JNum k) (JObj gs) = Ok d' ->
  get d' "example" = Ok (JArr (firstn (length xs - Z.to_nat (- k)) xs)).
Proof.
  intros Hk Hx H. unfold trim_def in H. cbn [own_props] in H. rewrite Hx in H.
  cbn [bind truthy get] in H. rewrite String.eqb_refl in H. cbn [bind] in H.
  rewrite js_gt_num in H.
  assert (G : Z.gtb (Z.of_nat (length xs)) k = true)
    by (rewrite Z.gtb_ltb; apply Z.ltb_lt; lia).
  rewrite G in H. unfold slice0, slice_end in H. cbn [to_number to_primitive prim_to_number] in H.
  assert (L : (k <? 0) = true) by (apply Z.ltb_lt; exact Hk). rewrite L in H.
  cbn [bind] in H. injection H as <-. rewrite get_set_prop, String.eqb_refl.
  do 3 f_equal. lia.
Qed.

(** X30: a negative [exampleCount] -k drops the last k examples of every
    retained sense (all of them when there are at most k). *)
Theorem project_negative_count (fs sfs : list (string * jv)) (ds : list jv) (k : Z) :
  get (JObj fs) "definition" = Ok (JArr ds) -> forallb is_sense ds = true -> k < 0 ->
  get (JObj sfs) "exampleCount" = Ok (JNum k) ->
  exists r ds', applyDisplayPreferences (JObj fs) (JObj sfs) = Ok r /\
    get r "definition" = Ok (JArr ds') /\
    forall i d', nth_error ds' i = Some d' ->
      exists d, nth_error ds i = Some d /\
        forall xs, get d "example" = Ok (JArr xs) ->
          get d' "example" = Ok (JArr (firstn (length xs - Z.to_nat (- k)) xs)).
Proof.
  intros Hd Hs Hk Hc.
  destruct (project_ok fs sfs ds Hd Hs) as (sc & ec & fin & _ & Hec & Hp & _ & Hnth).
  rewrite Hc in Hec. injection Hec as <-.
  exists (JObj (set_prop "definition" (JArr fin) fs)), fin.
  split; [exact Hp | split; [rewrite get_set_prop; reflexivity |]].
  intros i d' Hi. destruct (Hnth i d' Hi) as (d & Hdi & Hsd & Ht).
  exists d. split; [exact Hdi|]. intros xs Hx.
  destruct d as [| | | | | |gs]; try discriminate Hsd.
  exact (trim_def_negative k gs xs d' Hk Hx Ht).
Qed.

(* ------------------------------------------------------------------ *)
(** ** Concrete requests *)

Definition ex_gem_payload : jv :=
  JObj [("word", JStr "run");
        ("forms", JArr [JObj [("partOfSpeech", JStr "verb");
                              ("definitions", JArr [JObj [("definition", JStr "move fast")]])]])].

Definition ex_gem_entry : jv :=
  match normalizeGeminiData ex_gem_payload with Ok v => v | Throw => JNull end.

Definition ex_store_gemini : store := [("preferredSource", JStr "gemini"); ("targetLanguage", JStr "vi")].

Definition ex_gem_final : jv :=
  match applyDisplayPreferences ex_gem_entry (JObj (lookup_settings ex_store_gemini)) with
  | Ok v => v | Throw => JNull end.

(** Gemini answers, the Cambridge body is not JSON. *)
Definition ex_fetch_gemini (url : string) : fetch_outcome :=
  if String.eqb url (gemini_url "run" (JStr "vi")) then JsonOk ex_gem_payload else JsonFail.

(** Gemini answers, the Cambridge request fails. *)
Definition ex_fetch_gemini_only (url : string) : fetch_outcome :=
  if String.eqb url (gemini_url "run" (JStr "vi")) then JsonOk ex_gem_payload else FetchFail.

Definition ex_mw_payload : jv :=
  JArr [JObj [("meta", JObj [("id", JStr "run:1")]); ("fl", JStr "verb");
              ("shortdef", JArr [JStr "to go fast"])]].

Definition ex_mw_entry : jv :=
  match normalizeMwData ex_mw_payload with Ok v => v | Throw => JNull end.

Definition ex_entry_fields : list (string * jv) :=
  [("word", JStr "run");
   ("definition", JArr [JObj [("text", JStr "move fast"); ("example", JArr [JStr "e1"; JStr "e2"])];
                        JObj [("text", JStr "manage")]])].

Definition ex_entry_senses : list jv :=
  [JObj [("text", JStr "move fast"); ("example", JArr [JStr "e1"; JStr "e2"])];
   JObj [("text", JStr "manage")]].

Definition ex_translation : jv := JObj [("translatedText", JStr "xin chao")].

(* ------------------------------------------------------------------ *)
(** ** Witnesses *)

Lemma encodeURIComponent_injective_witness :
  encodeURIComponent "a b" = encodeURIComponent "a b" /\ "a b" = "a b".
Proof. split; [reflexivity | apply encodeURIComponent_injective; reflexivity]. Defined.

Lemma sentence_key_injective_witness :
  no_underscore "vi" = true /\ "hello" = "hello" /\ "vi" = "vi".
Proof.
  split; [reflexivity|].
  apply (sentence_key_injective "hello" "hello" "vi" "vi"); reflexivity.
Defined.

Lemma words_of_join_witness : words_of (String.concat " " ["big"; "apple"]) = ["big"; "apple"].
Proof.
  apply words_of_join. constructor; [split; reflexivity|]. constructor; [split; reflexivity|]. constructor.
Defined.

Lemma lookup_cache_hit_witness :
  let st := [(lookup_key "run" [], JBool true)] in
  lookup_flow "run" st (fun _ => FetchFail) =
  ([EGet settings_keys; EGet [lookup_key "run" st];
    ESend (RSuccess (fld st (lookup_key "run" st)) (lookup_tts st))], st).
Proof. intros st. apply lookup_cache_hit. vm_compute. reflexivity. Defined.

Lemma lookup_flow_cache_write_witness :
  let p := lookup_flow "run" ex_store_gemini ex_fetch_gemini in
  (snd p = ex_store_gemini /\ forall k v, ~ In (ESet k v) (fst p)) \/
  (exists pre v, fst p = (pre ++ [ESet (lookup_key "run" ex_store_gemini) v;
                                  ESend (RSuccess v (lookup_tts ex_store_gemini))])%list /\
     snd p = set_prop (lookup_key "run" ex_store_gemini) v ex_store_gemini /\
     forall k v', ~ In (ESet k v') pre).
Proof. intros p. apply lookup_flow_cache_write with ex_fetch_gemini. apply surjective_pairing. Defined.

Lemma lookup_repeat_hits_cache_witness :
  let p := lookup_flow "run" ex_store_gemini ex_fetch_gemini in
  In (ESet (lookup_key "run" ex_store_gemini) ex_gem_final) (fst p) /\
  lookup_flow "run" (snd p) (fun _ => FetchFail) =
  ([EGet settings_keys; EGet [lookup_key "run" ex_store_gemini];
    ESend (RSuccess ex_gem_final (lookup_tts ex_store_gemini))], snd p).
Proof.
  intros p. assert (H : In (ESet (lookup_key "run" ex_store_gemini) ex_gem_final) (fst p)).
  { vm_compute. repeat (first [left; reflexivity | right]). }
  split; [exact H|].
  exact (lookup_repeat_hits_cache "run" ex_store_gemini (snd p) ex_fetch_gemini (fun _ => FetchFail)
           (fst p) _ _ (surjective_pairing _) H).
Defined.

Lemma onMessage_answers_once_witness :
  let st := [("targetLanguage", JStr "vi")] in
  let message := JObj [("type", JStr "translateSentence"); ("text", JStr "hello")] in
  onMessage message st (fun _ => FetchFail) = Throw \/
  onMessage message st (fun _ => FetchFail) = Ok (JUndef, ([], st)) \/
  exists pre r st', onMessage message st (fun _ => FetchFail) = Ok (JBool true, ((pre ++ [ESend r])%list, st')) /\
    forallb (fun e => negb (is_send e)) pre = true.
Proof.
  intros st message. apply onMessage_answers_once.
  - vm_compute. reflexivity.
  - intros s H. vm_compute in H. injection H as <-. reflexivity.
Defined.

Lemma lookup_mw_without_key_witness :
  lookup_flow "run" [("preferredSource", JStr "merriam-webster")] (fun _ => FetchFail) =
  ([EGet settings_keys; EGet [lookup_key "run" [("preferredSource", JStr "merriam-webster")]];
    ESend (RError (Some mw_key_missing))], [("preferredSource", JStr "merriam-webster")]).
Proof. apply lookup_mw_without_key; vm_compute; reflexivity. Defined.

Lemma lookup_gemini_fetches_witness :
  fetched (fst (lookup_flow "big apple" ex_store_gemini (fun _ => FetchFail))) =
  [gemini_url "big apple" (JStr "vi")].
Proof.
  apply (lookup_gemini_fetches ["big"; "apple"]).
  - reflexivity.
  - reflexivity.
  - vm_compute. reflexivity.
  - constructor; [split; reflexivity|]. constructor; [split; reflexivity|]. constructor.
  - reflexivity.
Defined.

Lemma lookup_gemini_cambridge_unparsable_witness :
  lookup_flow "run" ex_store_gemini ex_fetch_gemini =
  ([EGet settings_keys; EGet [lookup_key "run" ex_store_gemini];
    EFetch (gemini_url "run" (js_or (fld ex_store_gemini "targetLanguage") (JStr "none")));
    EFetch (cambridge_url "run");
    ESet (lookup_key "run" ex_store_gemini) ex_gem_final; ESend (RSuccess ex_gem_final (lookup_tts ex_store_gemini))],
   set_prop (lookup_key "run" ex_store_gemini) ex_gem_final ex_store_gemini).
Proof.
  apply (lookup_gemini_cambridge_unparsable "run" ex_store_gemini ex_fetch_gemini
           ex_gem_payload ex_gem_entry (JStr "run")); vm_compute; reflexivity.
Defined.

Lemma lookup_gemini_cambridge_unreachable_witness :
  lookup_flow "run" ex_store_gemini ex_fetch_gemini_only =
  ([EGet settings_keys; EGet [lookup_key "run" ex_store_gemini];
    EFetch (gemini_url "run" (js_or (fld ex_store_gemini "targetLanguage") (JStr "none")));
    EFetch (cambridge_url "run"); ESend (RError None)], ex_store_gemini).
Proof. apply lookup_gemini_cambridge_unreachable; vm_compute; reflexivity. Defined.

Lemma lookup_gemini_rejected_witness :
  exists pre, lookup_flow "run" ex_store_gemini (fun _ => JsonOk JNull) =
    ((pre ++ [ESend (RError (Some gemini_not_found))])%list, ex_store_gemini).
Proof.
  apply (lookup_gemini_rejected "run" ex_store_gemini (fun _ => JsonOk JNull) JNull).
  - reflexivity.
  - vm_compute. reflexivity.
  - reflexivity.
  - reflexivity.
  - right. discriminate.
Defined.

Lemma lookup_dictionary_not_found_witness :
  lookup_flow "run" [] (fun _ => JsonOk JNull) =
  ([EGet settings_keys; EGet [lookup_key "run" []];
    EFetch ("http://localhost:3000/api/dictionary/en/" ++ "run");
    ESend (RError (Some definition_not_found))], []).
Proof.
  apply (lookup_dictionary_not_found "run" [] (fun _ => JsonOk JNull) JNull);
    [reflexivity | reflexivity | vm_compute; reflexivity | reflexivity | left; reflexivity].
Defined.

Lemma translate_without_language_witness :
  translate_flow (JStr "hello") [] (fun _ => FetchFail) =
  ([EGet translate_settings_keys; ESend (RNoLanguage no_language)], []).
Proof. apply translate_without_language. left. reflexivity. Defined.

Lemma translate_error_payload_witness :
  let st := [("targetLanguage", JStr "vi")] in
  translate_flow (JStr "hello") st (fun _ => JsonOk (JObj [("error", JStr "quota")])) =
  ([EGet translate_settings_keys; EGet [sentence_key (JStr "hello") (fld st "targetLanguage")];
    EFetch (translate_url (JStr "hello") (fld st "targetLanguage")); ESend (RError (Some "quota"))], st).
Proof.
  intros st.
  apply (translate_error_payload (JStr "hello") st _ (JObj [("error", JStr "quota")]) (JStr "quota"));
    vm_compute; reflexivity.
Defined.

Lemma translate_repeat_hits_cache_witness :
  let st := [("targetLanguage", JStr "vi")] in
  let p := translate_flow (JStr "hello") st (fun _ => JsonOk ex_translation) in
  In (ESet (sentence_key (JStr "hello") (JStr "vi")) ex_translation) (fst p) /\
  translate_flow (JStr "hello") (snd p) (fun _ => FetchFail) =
  ([EGet translate_settings_keys; EGet [sentence_key (JStr "hello") (JStr "vi")];
    ESend (RSuccess ex_translation (translate_tts st))], snd p).
Proof.
  intros st p. assert (H : In (ESet (sentence_key (JStr "hello") (JStr "vi")) ex_translation) (fst p)).
  { vm_compute. repeat (first [left; reflexivity | right]). }
  split; [exact H|].
  exact (translate_repeat_hits_cache (JStr "hello") st (snd p) (fun _ => JsonOk ex_translation)
           (fun _ => FetchFail) (fst p) _ _ (surjective_pairing _) H eq_refl).
Defined.

Lemma translate_falsy_payload_refetched_witness :
  let st := [("targetLanguage", JStr "vi")] in
  let p := translate_flow (JStr "hello") st (fun _ => JsonOk (JNum 0)) in
  In (ESet (sentence_key (JStr "hello") (JStr "vi")) (JNum 0)) (fst p) /\
  snd p = set_prop (sentence_key (JStr "hello") (JStr "vi")) (JNum 0) st /\
  In (EFetch (translate_url (JStr "hello") (fld st "targetLanguage")))
     (fst (translate_flow (JStr "hello") (snd p) (fun _ => FetchFail))).
Proof.
  intros st p. assert (H : In (ESet (sentence_key (JStr "hello") (JStr "vi")) (JNum 0)) (fst p)).
  { vm_compute. repeat (first [left; reflexivity | right]). }
  split; [exact H|].
  exact (translate_falsy_payload_refetched (JStr "hello") st (snd p) (fun _ => JsonOk (JNum 0))
           (fun _ => FetchFail) (fst p) _ _ (surjective_pairing _) H eq_refl).
Defined.

Lemma onMessage_word_not_string_witness :
  onMessage (JObj [("type", JStr "getDefinition"); ("word", JNum 5)]) [] (fun _ => FetchFail) = Throw.
Proof.
  apply (onMessage_word_not_string _ [] _ (JNum 5)); [reflexivity | reflexivity | discriminate].
Defined.

Lemma cambridge_merge_pronunciation_witness :
  exists w t ps pr ds,
    get ex_gem_payload "pronunciation" = Ok pr /\
    ex_gem_entry = gem_shape w t ps (js_or pr (JStr "")) (JStr "") ds /\
    cambridge_merge ex_gem_entry (JObj [("pronunciation", JArr [JObj [("url", JStr "u.mp3"); ("pron", JStr "/r/")]])]) =
      Ok (gem_shape w t ps
            (if truthy pr then pr else js_or (fld [("url", JStr "u.mp3"); ("pron", JStr "/r/")] "pron") (JStr ""))
            (fld [("url", JStr "u.mp3"); ("pron", JStr "/r/")] "url") ds).
Proof.
  apply (cambridge_merge_pronunciation ex_gem_payload ex_gem_entry _ _ [] []).
  - vm_compute. reflexivity.
  - vm_compute. discriminate.
  - reflexivity.
  - constructor.
  - reflexivity.
Defined.

Lemma mw_headword_witness :
  exists m0 meta id, idx ex_mw_payload 0 = Ok m0 /\ get m0 "meta" = Ok meta /\ get meta "id" = Ok (JStr id) /\
    get ex_mw_entry "word" = Ok (JStr (before_colon id)) /\
    String.prefix (before_colon id) id = true /\
    forallb (fun c => negb (Ascii.eqb c ":")) (list_ascii_of_string (before_colon id)) = true /\
    (before_colon id = id \/ String.prefix (before_colon id ++ ":") id = true).
Proof. apply mw_headword; [vm_compute; reflexivity | vm_compute; discriminate]. Defined.

Lemma mw_examples_empty_def_witness : mw_examples (JObj [("def", JArr [])]) = Throw.
Proof. apply (mw_examples_empty_def _ JUndef); reflexivity. Defined.

Lemma mw_suppl_example_witness :
  mw_examples (JObj [("suppl", JObj [("examples", JArr [JObj [("t", JStr "{it}run{/it} fast")]])])]) =
  Ok [JObj [("text", JStr (String.concat "" (filter (fun x => negb (it_tag x)) ["{it}"; "run"; "{/it}"; " fast"])))]].
Proof.
  apply (mw_suppl_example _ (JObj [("examples", JArr [JObj [("t", JStr "{it}run{/it} fast")]])])
           (JObj [("t", JStr "{it}run{/it} fast")]) []); reflexivity.
Defined.


Lemma gem_word_fallback_witness :
  (truthy (JStr "run") = true -> get ex_gem_entry "word" = Ok (JStr "run")) /\
  (truthy (JStr "run") = false -> get ex_gem_entry "word" = get ex_gem_payload "phrase") /\
  exists tr, get ex_gem_payload "translation" = Ok tr /\ get ex_gem_entry "translation" = Ok (js_or tr JNull).
Proof. apply gem_word_fallback; [vm_compute; reflexivity | vm_compute; discriminate | reflexivity]. Defined.

Lemma project_other_fields_witness :
  get (match applyDisplayPreferences (JObj ex_entry_fields) (JObj []) with Ok v => v | Throw => JNull end) "word" =
  get (JObj ex_entry_fields) "word".
Proof. apply (project_other_fields _ (JObj [])); [vm_compute; reflexivity | discriminate]. Defined.

Lemma project_scope_values_witness :
  exists r ds', applyDisplayPreferences (JObj ex_entry_fields) (JObj [("definitionScope", JStr "all")]) = Ok r /\
    get r "definition" = Ok (JArr ds') /\
    (truthy (JStr "all") = true -> strict_eq (JStr "all") (JStr "relevant") = false ->
       length ds' = length ex_entry_senses) /\
    (truthy (JStr "all") = false -> length ds' = Nat.min 1 (length ex_entry_senses)).
Proof. apply project_scope_values; reflexivity. Defined.

Lemma project_negative_count_witness :
  exists r ds', applyDisplayPreferences (JObj ex_entry_fields) (JObj [("exampleCount", JNum (-1))]) = Ok r /\
    get r "definition" = Ok (JArr ds') /\
    forall i d', nth_error ds' i = Some d' ->
      exists d, nth_error ex_entry_senses i = Some d /\
        forall xs, get d "example" = Ok (JArr xs) ->
          get d' "example" = Ok (JArr (firstn (length xs - Z.to_nat (- -1)) xs)).
Proof. apply project_negative_count; [reflexivity | reflexivity | lia | reflexivity]. Defined.

(* ------------------------------------------------------------------ *)
(** ** The projector leaves the store it is given unchanged *)

Import Store.

(** Locations below [b] hold the same objects in [h] and [h']. *)
Definition agree_below (b : nat) (h h' : heap) : Prop :=
  forall l, (l < b)%nat -> hmem h' l = hmem h l.

(** [m], run on a store whose allocation pointer is at least [b], leaves the
    locations below [b] alone, never lowers the pointer, and its results
    satisfy [Q]. *)
Definition wp {A} (b : nat) (m : St A) (Q : A -> Prop) : Prop :=
  forall h, (b <= hnext h)%nat ->
    agree_below b h (snd (m h)) /\ (hnext h <= hnext (snd (m h)))%nat /\
    (forall a, fst (m h) = Ok a -> Q a).

(** References of a value, an object and a store, bounded by [n]. *)
Definition hv_below (n : nat) (v : hv) : bool :=
  match v with HRef l => Nat.ltb l n | _ => true end.

Definition obj_below (n : nat) (o : hobj) : bool :=
  match o with
  | OArr xs => forallb (hv_below n) xs
  | OObj fs => forallb (fun kv => hv_below n (snd kv)) fs
  end.

Definition closed (h : heap) : bool :=
  forallb (fun l => match hmem h l with Some o => obj_below (hnext h) o | None => true end)
          (seq 0 (hnext h)).

Lemma wp_ret {A} (b : nat) (a : A) (Q : A -> Prop) : Q a -> wp b (ret a) Q.
Proof.
  intros Hq h Hb. simpl. split; [intros l _; reflexivity | split; [lia |]].
  intros a' H. injection H as <-. exact Hq.
Qed.

Lemma wp_throw {A} (b : nat) (Q : A -> Prop) : wp b throw Q.
Proof. intros h Hb. simpl. split; [intros l _; reflexivity | split; [lia | discriminate]]. Qed.

Lemma wp_bind {A B} (b : nat) (m : St A) (k : A -> St B) (Q : A -> Prop) (R : B -> Prop) :
  wp b m Q -> (forall a, Q a -> wp b (k a) R) -> wp b (sbind m k) R.
Proof.
  intros Hm Hk h Hb. unfold sbind.
  destruct (Hm h Hb) as (A1 & N1 & Q1). destruct (m h) as [[a|] h1]; simpl in *.
  - destruct (Hk a (Q1 a eq_refl) h1 ltac:(lia)) as (A2 & N2 & Q2).
    split; [intros l Hl; rewrite A2 by exact Hl; apply A1; exact Hl | split; [lia | exact Q2]].
  - split; [exact A1 | split; [exact N1 | discriminate]].
Qed.

Lemma wp_pure {A} (b : nat) (m : St A) : (forall h, snd (m h) = h) -> wp b m (fun _ => True).
Proof.
  intros Hm h Hb. rewrite Hm. split; [intros l _; reflexivity | split; [lia | auto]].
Qed.

Lemma wp_alloc (b : nat) (o : hobj) : wp b (alloc o) (fun l => (b <= l)%nat).
Proof.
  intros h Hb. simpl. split; [| split; [lia | intros a H; injection H as <-; exact Hb]].
  intros l Hl. cbn [hmem]. unfold upd. destruct (Nat.eqb l (hnext h)) eqn:E; [|reflexivity].
  apply Nat.eqb_eq in E. lia.
Qed.

Lemma wp_set_field (b l : nat) (k : string) (v : hv) :
  (b <= l)%nat -> wp b (set_field l k v) (fun _ => True).
Proof.
  intros Hl h Hb. unfold set_field. destruct (hmem h l) as [[xs|fs]|]; simpl;
    (split; [| split; [lia | auto]]); intros l' Hl'; try reflexivity.
  cbn [hmem]. unfold upd. destruct (Nat.eqb l' l) eqn:E; [apply Nat.eqb_eq in E; lia | reflexivity].
Qed.

Lemma deref_pure (l : nat) (h : heap) : snd (deref l h) = h.
Proof. unfold deref. destruct (hmem h l); reflexivity. Qed.

Lemma h_get_pure (v : hv) (k : string) (h : heap) : snd (h_get v k h) = h.
Proof.
  destruct v; try reflexivity. simpl. unfold sbind, deref.
  destruct (hmem h l) as [[]|]; reflexivity.
Qed.

Lemma h_own_props_pure (v : hv) (h : heap) : snd (h_own_props v h) = h.
Proof.
  destruct v; try reflexivity. simpl. unfold sbind, deref.
  destruct (hmem h l) as [[]|]; reflexivity.
Qed.

Lemma h_iter_elems_pure (v : hv) (h : heap) : snd (h_iter_elems v h) = h.
Proof.
  destruct v; try reflexivity. simpl. unfold sbind, deref.
  destruct (hmem h l) as [[]|]; reflexivity.
Qed.

Lemma wp_h_slice0 (b : nat) (v : hv) (e : jv) : wp b (h_slice0 v e) (fun _ => True).
Proof.
  destruct v; try apply wp_throw; try (apply wp_ret; exact I).
  unfold h_slice0. eapply wp_bind; [apply wp_pure, deref_pure |]. intros [xs|fs] _.
  - eapply wp_bind; [apply wp_alloc |]. intros. apply wp_ret. exact I.
  - apply wp_throw.
Qed.

Lemma wp_smapM {A B} (b : nat) (f : A -> St B) (xs : list A) :
  (forall x, wp b (f x) (fun _ => True)) -> wp b (smapM f xs) (fun _ => True).
Proof.
  intros Hf. induction xs as [|x xs IH]; simpl; [apply wp_ret; exact I|].
  eapply wp_bind; [apply Hf |]. intros y _.
  eapply wp_bind; [apply IH |]. intros ys _. apply wp_ret. exact I.
Qed.

Lemma wp_trim_def (b : nat) (count : jv) (d : hv) : wp b (Store.trim_def count d) (fun _ => True).
Proof.
  unfold Store.trim_def.
  eapply wp_bind; [apply wp_pure, h_own_props_pure |]. intros fs _.
  eapply wp_bind; [apply wp_alloc |]. intros newDef Hnd.
  eapply wp_bind; [apply wp_pure, h_get_pure |]. intros ex _.
  eapply wp_bind with (Q := fun _ => True).
  - destruct (h_truthy ex); [| apply wp_ret; exact I].
    eapply wp_bind; [apply wp_pure, h_get_pure |]. intros n _.
    eapply wp_bind; [apply wp_pure; intros h; reflexivity |]. intros nj _.
    apply wp_ret. exact I.
  - intros [|] _; [| apply wp_ret; exact I].
    eapply wp_bind; [apply wp_h_slice0 |]. intros ex' _.
    eapply wp_bind; [apply wp_set_field; exact Hnd |]. intros u _.
    apply wp_ret. exact I.
Qed.

Lemma wp_applyDisplayPreferences (b : nat) (data : hv) (settings : jv) :
  wp b (Store.applyDisplayPreferences data settings)
       (fun v => exists l, v = HRef l /\ (b <= l)%nat).
Proof.
  unfold Store.applyDisplayPreferences.
  eapply wp_bind; [apply wp_pure; intros h; reflexivity |]. intros ds _.
  eapply wp_bind; [apply wp_pure; intros h; reflexivity |]. intros ec _.
  eapply wp_bind; [apply wp_pure, h_get_pure |]. intros d _.
  eapply wp_bind; [apply wp_pure, h_iter_elems_pure |]. intros xs _.
  eapply wp_bind; [apply wp_alloc |]. intros copy _.
  eapply wp_bind with (Q := fun _ => True).
  - destruct (_ && _).
    + eapply wp_bind; [apply wp_alloc |]. intros one _. apply wp_ret. exact I.
    + apply wp_ret. exact I.
  - intros use _.
    eapply wp_bind; [apply wp_smapM; intros x; apply wp_trim_def |]. intros fin _.
    eapply wp_bind; [apply wp_alloc |]. intros lfin _.
    eapply wp_bind; [apply wp_pure, h_own_props_pure |]. intros props _.
    eapply wp_bind; [apply wp_alloc |]. intros out Hout.
    apply wp_ret. eauto.
Qed.

Lemma closed_obj (h : heap) (l : nat) (o : hobj) :
  closed h = true -> (l < hnext h)%nat -> hmem h l = Some o -> obj_below (hnext h) o = true.
Proof.
  unfold closed. intros Hc Hl Hm. rewrite forallb_forall in Hc.
  specialize (Hc l). rewrite Hm in Hc. apply Hc. apply in_seq. lia.
Qed.

(** A value whose references lie below the pointer of a closed store reads
    back the same from any store that agrees with it there. *)
Lemma read_back_agree (fuel : nat) (h h' : heap) (v : hv) :
  closed h = true -> agree_below (hnext h) h h' -> hv_below (hnext h) v = true ->
  read_back fuel h' v = read_back fuel h v.
Proof.
  intros Hc Ha. revert v; induction fuel as [|fuel IH]; intros v Hv;
    destruct v; try reflexivity.
  simpl in Hv. apply Nat.ltb_lt in Hv. simpl. rewrite (Ha l Hv).
  destruct (hmem h l) as [[xs|fs]|] eqn:Hm; [| |reflexivity];
    pose proof (closed_obj h l _ Hc Hv Hm) as Ho; simpl in Ho; rewrite forallb_forall in Ho.
  - f_equal. apply map_ext_in. intros x Hx. apply IH, Ho, Hx.
  - f_equal. apply map_ext_in. intros [k x] Hx. simpl. f_equal. apply IH.
    apply (Ho (k, x)), Hx.
Qed.

(** An entry in a store: the entry object at location 0, its sense array at
    1, two senses at 2 and 3, and the examples of the first sense at 4. *)
Definition sample_store : heap :=
  {| hmem := fun l =>
       match l with
       | 0%nat => Some (OObj [("word", HStr "run"); ("pos", HRef 5); ("definition", HRef 1)])
       | 1%nat => Some (OArr [HRef 2; HRef 3])
       | 2%nat => Some (OObj [("pos", HStr "verb"); ("text", HStr "move fast"); ("example", HRef 4)])
       | 3%nat => Some (OObj [("pos", HStr "noun"); ("text", HStr "an act of running")])
       | 4%nat => Some (OArr [HStr "He can run fast."; HStr "Run!"])
       | 5%nat => Some (OArr [HStr "verb"; HStr "noun"])
       | _ => None
       end;
     hnext := 6 |}.

(** C9: running the projector on an entry held in a store leaves every
    object that existed before the call as it was, so the input entry, its
    sense list and every sense's examples read back the same afterwards when
    the store is closed and the entry lies in it; a successful result is a
    reference to a newly allocated object. *)
Theorem applyDisplayPreferences_no_mutation
    (data : hv) (settings : jv) (h h' : heap) (r : res hv) :
  Store.applyDisplayPreferences data settings h = (r, h') ->
  (forall l, (l < hnext h)%nat -> hmem h' l = hmem h l) /\
  (forall v, r = Ok v -> exists l, v = HRef l /\ (hnext h <= l)%nat) /\
  (closed h = true -> hv_below (hnext h) data = true ->
   forall fuel, read_back fuel h' data = read_back fuel h data).
Proof.
  intros E.
  destruct (wp_applyDisplayPreferences (hnext h) data settings h (le_n _)) as (Ha & _ & Hq).
  rewrite E in Ha, Hq. simpl in Ha, Hq.
  split; [exact Ha | split; [exact Hq |]].
  intros Hc Hv fuel. apply read_back_agree; assumption.
Qed.

Lemma applyDisplayPreferences_no_mutation_witness :
  exists r h', Store.applyDisplayPreferences (HRef 0) (JObj []) sample_store = (r, h') /\
    (forall fuel, read_back fuel h' (HRef 0) = read_back fuel sample_store (HRef 0)) /\
    hmem h' 4 = Some (OArr [HStr "He can run fast."; HStr "Run!"]).
Proof.
  destruct (Store.applyDisplayPreferences (HRef 0) (JObj []) sample_store) as [r h'] eqn:E.
  exists r, h'. split; [reflexivity |].
  destruct (applyDisplayPreferences_no_mutation _ _ _ _ _ E) as (Hmem & _ & Hread).
  split.
  - apply Hread; vm_compute; reflexivity.
  - rewrite (Hmem 4%nat) by (simpl; lia). reflexivity.
Defined.
